(** * The event pipeline of [internal/observability/event]

    A shallow embedding of the two [Eventer] implementations of the
    repository: [internal/observability/event/eventer.go] (module [Event])
    and the earlier single-pipeline eventer of the same package (module
    [EventV0]).  The public id helpers of [internal/auth/oidc/ids.go] are
    embedded in module [Oidc].

    The eventers talk to collaborators that live outside the package: the
    [eventlogger] broker, the gated filter nodes, the logger and the
    identifier generator.  Every interaction with one of them is recorded,
    in order, in a trace of calls; what the collaborator answers is given by
    an [environment], a pair of functions of the calls made so far.  A Go
    function returning [(T, error)] becomes a computation in the monad [M],
    which threads the trace and the mutable store and stops at the first
    error. *)

From Stdlib Require Import ZArith List Bool Lia.
From stdpp Require Import base option list gmap strings pretty.

Set Implicit Arguments.

(** ** Errors and results *)

(** Go [error] values, by the way they are built. *)
Inductive goerror :=
| ErrInvalidParameter
| ErrForeign (msg : string)
| Errorf (msg : string)
| ErrorfW (msg : string) (wrapped : goerror)
| ErrorsNew (code op msg : string)
| ErrorsWrap (e : goerror) (op : string)
| Panic (msg : string).

Inductive result (A : Type) :=
| Ok (a : A)
| Err (e : goerror).

Arguments Ok {A} a.
Arguments Err {A} e.

Definition NodeID := string.

(** [eventlogger.Status]: only the warnings are read by the eventers. *)
Record Status := { Warnings : list string }.

(** The nodes the eventers build. [GatedFilter] carries the address of the
    [gated.Filter] value, because a flushable node is a pointer to it. *)
Inductive Node :=
| JSONFormatter
| WriterSink (format : string)
| FileSinkNode (format path fileName : string) (maxBytes maxDuration maxFiles : Z)
| GatedFilter (addr : nat).

Definition isFormatter (n : Node) : bool :=
  match n with JSONFormatter => true | _ => false end.

Definition isSink (n : Node) : bool :=
  match n with WriterSink _ | FileSinkNode _ _ _ _ _ _ => true | _ => false end.

Definition isGate (n : Node) : bool :=
  match n with GatedFilter _ => true | _ => false end.

Section Runtime.

Context {EvT Payload Store : Type}.

(** [eventlogger.Pipeline] *)
Record Pipeline := {
  EventType : EvT;
  PipelineID : string;
  NodeIDs : list NodeID
}.

(** One entry per call that leaves the package. *)
Inductive call :=
| NewId (prefix : string)
| StopTimeAt (now : Z)
| RegisterNode (id : NodeID) (node : Node)
| RegisterPipeline (def : Pipeline)
| SetSuccessThreshold (t : EvT) (successThreshold : Z)
| Send (t : EvT) (payload : Payload)
| Reopen
| FlushAll (addr : nat)
| Sleep (attempt : nat)
| LoggerError (msg : string) (e : goerror)
| LoggerWarn (msg : string) (warnings : list string).

Record world := {
  trace : list call;
  store : Store
}.

Record response := {
  status : Status;
  failure : option goerror
}.

(** What the collaborators answer, given the calls made before. *)
Record environment := {
  idSource : list call -> string -> result string;
  respond : list call -> call -> response
}.

Definition M (A : Type) : Type := world -> result A * world.

Definition ret {A} (a : A) : M A := fun w => (Ok a, w).

Definition fail {A} (e : goerror) : M A := fun w => (Err e, w).

Definition bind {A B} (m : M A) (f : A -> M B) : M B :=
  fun w =>
    match m w with
    | (Ok a, w') => f a w'
    | (Err e, w') => (Err e, w')
    end.

(** [if err != nil { return ..., f(err) }] *)
Definition mapErr {A} (f : goerror -> goerror) (m : M A) : M A :=
  fun w =>
    match m w with
    | (Ok a, w') => (Ok a, w')
    | (Err e, w') => (Err (f e), w')
    end.

Definition record (c : call) (w : world) : world :=
  {| trace := trace w ++ [c]; store := store w |}.

Definition emit (c : call) : M unit := fun w => (Ok tt, record c w).

Variable E : environment.

(** A call that can fail: broker and node methods. *)
Definition invoke (c : call) : M Status :=
  fun w =>
    match failure (respond E (trace w) c) with
    | None => (Ok (status (respond E (trace w) c)), record c w)
    | Some e => (Err e, record c w)
    end.

(** [newId(prefix)] *)
Definition newId (prefix : string) : M string :=
  fun w => (idSource E (trace w) prefix, record (NewId prefix) w).

(** [for _, x := range l { ... }] with a body that may return an error. *)
Fixpoint foldM {A B} (body : A -> B -> M A) (l : list B) (a : A) : M A :=
  match l with
  | [] => ret a
  | x :: l' => bind (body a x) (foldM body l')
  end.

(** ** Reading a trace *)

Definition thresholdOf (c : call) : option (EvT * Z) :=
  match c with
  | SetSuccessThreshold t n => Some (t, n)
  | _ => None
  end.

Definition pipelineOf (c : call) : option Pipeline :=
  match c with
  | RegisterPipeline def => Some def
  | _ => None
  end.

Definition nodeOf (c : call) : option (NodeID * Node) :=
  match c with
  | RegisterNode id node => Some (id, node)
  | _ => None
  end.

Definition sendOf (c : call) : option (EvT * Payload) :=
  match c with
  | Send t p => Some (t, p)
  | _ => None
  end.

Definition flushOf (c : call) : option nat :=
  match c with
  | FlushAll a => Some a
  | _ => None
  end.

(** The thresholds set, the pipelines and nodes registered, the events
    sent and the nodes flushed by a sequence of calls, in order. *)
Definition thresholdsOf (t : list call) : list (EvT * Z) := omap thresholdOf t.
Definition pipelinesOf (t : list call) : list Pipeline := omap pipelineOf t.
Definition nodesOf (t : list call) : list (NodeID * Node) := omap nodeOf t.
Definition sendsOf (t : list call) : list (EvT * Payload) := omap sendOf t.
Definition flushesOf (t : list call) : list nat := omap flushOf t.

(** ** Properties of computations *)

(** A computation that leaves the store alone, whatever it returns. *)
Definition keepsStore {A} (m : M A) : Prop :=
  forall w, store (snd (m w)) = store w.

(** Every error that a computation can return satisfies [P]. *)
Definition failsOnlyWith {A} (P : goerror -> Prop) (m : M A) : Prop :=
  forall w x w', m w = (Err x, w') -> P x.

(** The calls that configure a broker, as opposed to those that use it. *)
Definition isSetup (c : call) : bool :=
  match c with
  | NewId _ | StopTimeAt _ | RegisterNode _ _ | RegisterPipeline _
  | SetSuccessThreshold _ _ => true
  | _ => false
  end.

(** Whatever it returns, the computation appends calls that satisfy [Q] to
    the trace and changes nothing else of it. *)
Definition emitsOnly {A} (Q : call -> Prop) (m : M A) : Prop :=
  forall w, exists new, trace (snd (m w)) = trace w ++ new /\ Forall Q new.

(** The calls of a retried call [c]: the call itself and the sleeps between
    the attempts. *)
Definition attemptOf (c x : call) : Prop := x = c \/ exists k, x = Sleep k.

(** The error with which the environment answers the call [c] made after
    the calls [t], when it refuses it. *)
Definition refusal (t : list call) (c : call) : option goerror :=
  match c with
  | NewId prefix =>
      match idSource E t prefix with
      | Err e => Some e
      | Ok _ => None
      end
  | _ => failure (respond E t c)
  end.


End Runtime.

Arguments call : clear implicits.
Arguments Pipeline : clear implicits.
Arguments world : clear implicits.
Arguments environment : clear implicits.
Arguments response : clear implicits.
Arguments M : clear implicits.

Declare Scope go_scope.
Delimit Scope go_scope with go.
Notation "x <- c1 ;; c2" := (bind c1 (fun x => c2))
  (at level 100, c1 at next level, right associativity) : go_scope.
Open Scope go_scope.

(** * [internal/observability/event/eventer.go] *)

Module Event.

Definition OpField : string := "op".
Definition RequestInfoField : string := "request_info".
Definition VersionField : string := "version".
Definition DetailsField : string := "details".
Definition HeaderField : string := "header".
Definition IdField : string := "id".
Definition CreatedAtField : string := "created_at".
Definition TypeField : string := "type".

Definition auditPipeline : string := "audit-pipeline".
Definition observationPipeline : string := "observation-pipeline".
Definition errPipeline : string := "err-pipeline".
Definition sysPipeline : string := "sys-pipeline".

(** The event types the constructor switches on.  The Go type [Type] is a
    string type whose constants are declared outside [eventer.go]; any
    value other than the five constants is an [OtherType]. *)
Inductive Type_ :=
| EveryType
| ErrorType
| AuditType
| ObservationType
| SystemType
| OtherType (name : string).

(** [SinkType]: the constructor singles out [StderrSink] and treats every
    other value as a file sink. *)
Inductive SinkType :=
| StderrSink
| FileSink
| OtherSinkType (name : string).

#[global] Instance Type_eq_dec : EqDecision Type_.
Proof. solve_decision. Defined.

Definition JSONSinkFormat : string := "json".

Record SinkConfig := {
  Name : string;
  EventTypes : list Type_;
  sinkType : SinkType;
  Format : string;
  Path : string;
  FileName : string;
  RotateBytes : Z;
  RotateDuration : Z;
  RotateMaxFiles : Z
}.

(** [EventerConfig] is declared outside [eventer.go]; these are the fields
    that [DefaultEventerConfig] sets and the package reads. *)
Record EventerConfig := {
  AuditEnabled : bool;
  ObservationsEnabled : bool;
  SysEventsEnabled : bool;
  Sinks : list SinkConfig
}.

Record pipeline := {
  eventType : Type_;
  fmtId : NodeID;
  sinkId : NodeID;
  gateId : NodeID;
  sinkConfig : SinkConfig
}.

(** The zero value of [SinkConfig], for composite literals that omit it. *)
Definition zeroSinkConfig : SinkConfig :=
  {| Name := ""; EventTypes := []; sinkType := OtherSinkType ""; Format := "";
     Path := ""; FileName := ""; RotateBytes := 0; RotateDuration := 0;
     RotateMaxFiles := 0 |}.

Definition DefaultSink : SinkConfig :=
  {| Name := "default"; EventTypes := [EveryType]; sinkType := StderrSink;
     Format := JSONSinkFormat; Path := ""; FileName := ""; RotateBytes := 0;
     RotateDuration := 0; RotateMaxFiles := 0 |}.

(** A sink is subscribed to the event type [t] (one of the four proper
    types) when its [EventTypes] lists [t] or [EveryType]. *)
Definition selects (t x : Type_) : bool :=
  match x with
  | EveryType => true
  | _ => bool_decide (x = t)
  end.

Definition subscribesTo (t : Type_) (s : SinkConfig) : bool :=
  existsb (selects t) (EventTypes s).

Definition subscribers (t : Type_) (sinks : list SinkConfig) : list SinkConfig :=
  filter (fun s => subscribesTo t s = true) sinks.

Definition DefaultEventerConfig : EventerConfig :=
  {| AuditEnabled := false; ObservationsEnabled := true;
     SysEventsEnabled := true; Sinks := [DefaultSink] |}.

Section Eventer.

(** The event structs, the request info, the logger, the mutex and the
    broker implementation are declared outside this file and are never
    inspected by it. *)
Context {audit err sysEvent RequestInfo Logger Mutex Broker : Type}.

(** Values stored under [interface{}] in a header or detail map. *)
Inductive anyvalue :=
| VString (s : string)
| VRequestInfo (r : option RequestInfo)
| VOther (s : string).

(** Modelled from the spec: the struct [observation] is declared outside
    [eventer.go], which reads its fields [Header], [Detail], [Payload],
    [RequestInfo], [Version] and [Op].  The spec has the header and detail
    fields stamped into the payload, so the payload (the embedded
    [*gated.Payload]) owns the two maps, either of which may be nil. *)
Record gatedPayload := {
  ID : string;
  Flush : bool;
  Header : option (gmap string anyvalue);
  Detail : option (gmap string anyvalue)
}.

Record observation := {
  Payload : gatedPayload;
  Version : string;
  Op : string;
  RequestInfo_ : option RequestInfo
}.

(** What is handed to [Broker.Send]. *)
Inductive payload :=
| AuditEvent (event : audit)
| ErrEvent (event : err)
| SysEvent (event : sysEvent)
| GatedPayload (p : gatedPayload).

Inductive brokerRef :=
| NewBroker
| SuppliedBroker (b : Broker).

Record Eventer := {
  broker : brokerRef;
  flushableNodes : list nat;
  conf : EventerConfig;
  logger : Logger;
  auditPipelines : list pipeline;
  observationPipelines : list pipeline;
  errPipelines : list pipeline
}.

(** The result of [getOpts]. *)
Record options := {
  withEventer : option Eventer;
  withEventerConfig : option EventerConfig;
  withBroker : option Broker;
  withNow : Z
}.

Definition getDefaultOptions : options :=
  {| withEventer := None; withEventerConfig := None; withBroker := None;
     withNow := 0 |}.

(** Mutable memory: the observations reachable through a [*observation]
    and the package variable [sysEventer]. *)
Record memory := {
  observations : gmap nat observation;
  sysEventer : option Eventer
}.

Abbreviation G := (M Type_ payload memory).
Abbreviation gocall := (call Type_ payload).

(** A [context.Context], seen through what [ctx.Err()] answers after the
    calls made so far. *)
Definition Ctx : Type := list gocall -> option goerror.

Variable E : environment Type_ payload.

(** [EventerConfig.Validate], [stdRetryCount] and the classification of
    delivery errors are declared outside this file. *)
Variable Validate : EventerConfig -> option goerror.
Variable stdRetryCount : nat.
Variable transient : goerror -> bool.

Record subscriptions := {
  addToAudit : bool;
  addToObservation : bool;
  addToErr : bool;
  addToSys : bool
}.

Definition noSubscriptions : subscriptions :=
  {| addToAudit := false; addToObservation := false; addToErr := false;
     addToSys := false |}.

(** The [switch t] of the loop over [s.EventTypes]. *)
Definition subscribe (f : subscriptions) (t : Type_) : subscriptions :=
  match t with
  | EveryType =>
      {| addToAudit := true; addToObservation := true; addToErr := true;
         addToSys := true |}
  | ErrorType =>
      {| addToAudit := addToAudit f; addToObservation := addToObservation f;
         addToErr := true; addToSys := addToSys f |}
  | AuditType =>
      {| addToAudit := true; addToObservation := addToObservation f;
         addToErr := addToErr f; addToSys := addToSys f |}
  | ObservationType =>
      {| addToAudit := addToAudit f; addToObservation := true;
         addToErr := addToErr f; addToSys := addToSys f |}
  | SystemType =>
      {| addToAudit := addToAudit f; addToObservation := addToObservation f;
         addToErr := addToErr f; addToSys := true |}
  | OtherType _ => f
  end.

Record pipelineSets := {
  auditPs : list pipeline;
  observationPs : list pipeline;
  errPs : list pipeline;
  sysPs : list pipeline
}.

Definition noPipelines : pipelineSets :=
  {| auditPs := []; observationPs := []; errPs := []; sysPs := [] |}.

Definition opNewEventer : string := "event.NewEventer".

(** The [switch s.SinkType] of the loop over [c.Sinks]: the sink node and
    its identifier.  [allSinkFilenames] is only ever read. *)
Definition buildSink (allSinkFilenames : gmap string bool) (s : SinkConfig)
  : G (NodeID * Node) :=
  match sinkType s with
  | StderrSink =>
      id <- mapErr (ErrorfW opNewEventer) (newId E "stderr") ;;
      ret (id, WriterSink (Format s))
  | _ =>
      match allSinkFilenames !! (Path s +:+ FileName s) with
      | Some _ =>
          fail (Errorf (opNewEventer +:+ ": duplicate file sink: " +:+ Path s
                        +:+ " " +:+ FileName s))
      | None =>
          id <- mapErr (ErrorfW opNewEventer)
                  (newId E ("file_" +:+ Path s +:+ "_" +:+ FileName s +:+ "_")) ;;
          ret (id, FileSinkNode (Format s) (Path s) (FileName s) (RotateBytes s)
                     (RotateDuration s) (RotateMaxFiles s))
      end
  end.

(** The body of [for _, s := range c.Sinks]. *)
Definition sinkBody (jsonfmtId : NodeID) (allSinkFilenames : gmap string bool)
  (acc : pipelineSets) (s : SinkConfig) : G pipelineSets :=
  sink <- buildSink allSinkFilenames s ;;
  _ <- mapErr (ErrorfW (opNewEventer +:+ ": failed to register sink node " +:+ fst sink))
         (invoke E (RegisterNode (fst sink) (snd sink))) ;;
  let f := fold_left subscribe (EventTypes s) noSubscriptions in
  ret {| auditPs :=
           if addToAudit f
           then auditPs acc ++ [ {| eventType := AuditType; fmtId := jsonfmtId;
                                    sinkId := fst sink; gateId := "";
                                    sinkConfig := s |} ]
           else auditPs acc;
         observationPs :=
           if addToObservation f
           then observationPs acc ++ [ {| eventType := ObservationType;
                                          fmtId := jsonfmtId; sinkId := fst sink;
                                          gateId := ""; sinkConfig := s |} ]
           else observationPs acc;
         errPs :=
           if addToErr f
           then errPs acc ++ [ {| eventType := ErrorType; fmtId := jsonfmtId;
                                  sinkId := fst sink; gateId := "";
                                  sinkConfig := s |} ]
           else errPs acc;
         sysPs :=
           if addToSys f
           then sysPs acc ++ [ {| eventType := SystemType; fmtId := jsonfmtId;
                                  sinkId := fst sink; gateId := "";
                                  sinkConfig := zeroSinkConfig |} ]
           else sysPs acc |}.

(** The body of the loops over [auditPipelines] and [observationPipelines],
    which differ in three strings only.  The state is [e.flushableNodes];
    the new gated filter lives at the next free address. *)
Definition gateBody (idPrefix pipelineName pipelineMsg : string)
  (flushable : list nat) (p : pipeline) : G (list nat) :=
  let gatedFilterNode := length flushable in
  let flushable := flushable ++ [gatedFilterNode] in
  gateId <- mapErr (ErrorfW opNewEventer) (newId E idPrefix) ;;
  _ <- mapErr (ErrorfW (opNewEventer +:+ ": unable to register audit gated filter"))
         (invoke E (RegisterNode gateId (GatedFilter gatedFilterNode))) ;;
  pipeId <- mapErr (ErrorfW opNewEventer) (newId E pipelineName) ;;
  _ <- mapErr (ErrorfW (opNewEventer +:+ pipelineMsg))
         (invoke E (RegisterPipeline
                      {| EventType := eventType p; PipelineID := pipeId;
                         NodeIDs := [gateId; fmtId p; sinkId p] |})) ;;
  ret flushable.

(** The body of the loops over [errPipelines] and [sysPipelines]; the state
    is [errNodeIds], respectively [sysNodeIds]. *)
Definition directBody (pipelineName pipelineMsg : string)
  (nodeIds : list NodeID) (p : pipeline) : G (list NodeID) :=
  pipeId <- mapErr (ErrorfW opNewEventer) (newId E pipelineName) ;;
  _ <- mapErr (ErrorfW (opNewEventer +:+ pipelineMsg))
         (invoke E (RegisterPipeline
                      {| EventType := eventType p; PipelineID := pipeId;
                         NodeIDs := [fmtId p; sinkId p] |})) ;;
  ret (nodeIds ++ [sinkId p]).

(** [if len(c.Sinks) == 0 { c.Sinks = append(c.Sinks, DefaultSink()) }] *)
Definition withDefaultSink (c : EventerConfig) : EventerConfig :=
  if decide (length (Sinks c) = 0)
  then {| AuditEnabled := AuditEnabled c;
          ObservationsEnabled := ObservationsEnabled c;
          SysEventsEnabled := SysEventsEnabled c;
          Sinks := Sinks c ++ [DefaultSink] |}
  else c.

(** The three checks that an enabled event type has a sink. *)
Definition requireSinks (c : EventerConfig) (ps : pipelineSets) : G unit :=
  if AuditEnabled c && (length (auditPs ps) =? 0) then
    fail (ErrorfW (opNewEventer +:+ ": audit events enabled but no sink defined for it")
            ErrInvalidParameter)
  else if ObservationsEnabled c && (length (observationPs ps) =? 0) then
    fail (ErrorfW (opNewEventer +:+ ": observation events enabled but no sink defined for it")
            ErrInvalidParameter)
  else if SysEventsEnabled c && (length (sysPs ps) =? 0) then
    fail (ErrorfW (opNewEventer +:+ ": system events enabled but no sink defined for it")
            ErrInvalidParameter)
  else ret tt.

Definition NewEventer (log : option Logger) (serializationLock : option Mutex)
  (c : EventerConfig) (opts : options) : G Eventer :=
  match log with
  | None => fail (ErrorfW (opNewEventer +:+ ": missing logger") ErrInvalidParameter)
  | Some log =>
  match serializationLock with
  | None =>
      fail (ErrorfW (opNewEventer +:+ ": missing serialization lock") ErrInvalidParameter)
  | Some _ =>
  let c := withDefaultSink c in
  match Validate c with
  | Some e => fail (ErrorfW opNewEventer e)
  | None =>
  let b := match withBroker opts with
           | Some b => SuppliedBroker b
           | None => NewBroker
           end in
  _ <- (if (withNow opts =? 0)%Z then ret tt else emit (StopTimeAt (withNow opts))) ;;
  jsonfmtId <- mapErr (ErrorfW opNewEventer) (newId E "json") ;;
  _ <- mapErr (ErrorfW (opNewEventer +:+ ": failed to register json node"))
         (invoke E (RegisterNode jsonfmtId JSONFormatter)) ;;
  let allSinkFilenames : gmap string bool := ∅ in
  ps <- foldM (sinkBody jsonfmtId allSinkFilenames) (Sinks c) noPipelines ;;
  _ <- requireSinks c ps ;;
  flushable <- foldM (gateBody "gated-audit" auditPipeline
                        ": failed to register audit pipeline") (auditPs ps) [] ;;
  flushable <- foldM (gateBody "gated-observation" observationPipeline
                        ": failed to register observation pipeline")
                 (observationPs ps) flushable ;;
  errNodeIds <- foldM (directBody errPipeline ": failed to register err pipeline")
                  (errPs ps) [] ;;
  sysNodeIds <- foldM (directBody sysPipeline ": failed to register sys pipeline")
                  (sysPs ps) [] ;;
  _ <- mapErr (ErrorfW (opNewEventer +:+ ": failed to set success threshold for error events"))
         (invoke E (SetSuccessThreshold ErrorType (Z.of_nat (length errNodeIds)))) ;;
  ret {| broker := b; flushableNodes := flushable; conf := c; logger := log;
         auditPipelines := auditPs ps;
         observationPipelines := observationPs ps;
         errPipelines := errPs ps |}
  end end end.

(** Modelled from the spec: [retrySend] is declared outside this file.
    It invokes [sendFn]; a failure classified as transient is retried after
    a backoff sleep, up to [maxAttempts] attempts, and the last error is
    returned when they are used up; any other failure is returned at once;
    a cancelled context ends the retrying with the context's error instead
    of a further sleep. *)
Fixpoint retryFrom (ctx : Ctx) (attempt remaining : nat) (sendFn : G Status)
  : G unit :=
  match remaining with
  | 0 => ret tt
  | S remaining' =>
      fun w =>
        match sendFn w with
        | (Ok _, w') => (Ok tt, w')
        | (Err e, w') =>
            if transient e then
              match remaining' with
              | 0 => (Err e, w')
              | S _ =>
                  match ctx (trace w') with
                  | Some cancelled => (Err cancelled, w')
                  | None =>
                      retryFrom ctx (S attempt) remaining' sendFn
                        (record (Sleep attempt) w')
                  end
              end
            else (Err e, w')
        end
  end.

Definition retrySend (ctx : Ctx) (maxAttempts : nat) (sendFn : G Status) : G unit :=
  retryFrom ctx 1 maxAttempts sendFn.

(** [if err != nil { e.logger.Error(msg, "error:", err.Error()); return
    fmt.Errorf("%s: %w", op, err) }; return nil] *)
Definition logFailure (msg op : string) (m : G unit) : G unit :=
  fun w =>
    match m w with
    | (Ok _, w') => (Ok tt, w')
    | (Err e, w') => (Err (ErrorfW op e), record (LoggerError msg e) w')
    end.

(** The assignments that the send closure of [writeObservation] makes. *)
Definition stamp (event : observation) : observation :=
  {| Payload :=
       {| ID := ID (Payload event);
          Flush := Flush (Payload event);
          Header :=
            match Header (Payload event) with
            | Some h =>
                Some (<[VersionField := VString (Version event)]>
                        (<[RequestInfoField := VRequestInfo (RequestInfo_ event)]> h))
            | None => None
            end;
          Detail :=
            match Detail (Payload event) with
            | Some d => Some (<[OpField := VString (Op event)]> d)
            | None => None
            end |};
     Version := Version event;
     Op := Op event;
     RequestInfo_ := RequestInfo_ event |}.

Definition setObservation (l : nat) (event : observation) (w : world Type_ payload memory)
  : world Type_ payload memory :=
  {| trace := trace w;
     store := {| observations := <[l := event]> (observations (store w));
                 sysEventer := sysEventer (store w) |} |}.

(** The closure handed to [retrySend] by [writeObservation]; [event] is the
    address of the observation. *)
Definition sendObservation (event : nat) : G Status :=
  fun w =>
    match observations (store w) !! event with
    | None => (Err (Panic "invalid memory address or nil pointer dereference"), w)
    | Some ev =>
        invoke E (Send ObservationType (GatedPayload (Payload (stamp ev))))
          (setObservation event (stamp ev) w)
    end.

Definition writeObservation (e : Eventer) (ctx : Ctx) (event : option nat) : G unit :=
  let op := "event.(Eventer).writeObservation" in
  match event with
  | None => fail (ErrorfW (op +:+ ": missing event") ErrInvalidParameter)
  | Some event =>
      if negb (ObservationsEnabled (conf e)) then ret tt
      else
        logFailure "encountered an error sending an observation event" op
          (retrySend ctx stdRetryCount (sendObservation event))
  end.

Definition writeError (e : Eventer) (ctx : Ctx) (event : option err) : G unit :=
  let op := "event.(Eventer).writeError" in
  match event with
  | None => fail (ErrorfW (op +:+ ": missing event") ErrInvalidParameter)
  | Some event =>
      logFailure "encountered an error sending an error event" op
        (retrySend ctx stdRetryCount (invoke E (Send ErrorType (ErrEvent event))))
  end.

Definition writeSysEvent (e : Eventer) (ctx : Ctx) (event : option sysEvent) : G unit :=
  let op := "event.(Eventer).writeSysEvent" in
  match event with
  | None => fail (ErrorfW (op +:+ ": missing event") ErrInvalidParameter)
  | Some event =>
      logFailure "encountered an error sending an sys event" op
        (retrySend ctx stdRetryCount (invoke E (Send SystemType (SysEvent event))))
  end.

Definition writeAudit (e : Eventer) (ctx : Ctx) (event : option audit) : G unit :=
  let op := "event.(Eventer).writeAudit" in
  match event with
  | None => fail (ErrorfW (op +:+ ": missing event") ErrInvalidParameter)
  | Some event =>
      if negb (AuditEnabled (conf e)) then ret tt
      else
        logFailure "encountered an error sending an audit event" op
          (retrySend ctx stdRetryCount (invoke E (Send AuditType (AuditEvent event))))
  end.



(** [sysEventer = e], under the write lock. *)
Definition setSysEventer (e : Eventer) : G unit :=
  fun w =>
    (Ok tt, {| trace := trace w;
               store := {| observations := observations (store w);
                           sysEventer := Some e |} |}).

Definition InitSysEventer (log : option Logger) (serializationLock : option Mutex)
  (opts : options) : G unit :=
  let op := "event.InitSysEventer" in
  match log with
  | None => fail (ErrorfW (op +:+ ": missing hclog") ErrInvalidParameter)
  | Some _ =>
  match serializationLock with
  | None => fail (ErrorfW (op +:+ ": missing serialization lock") ErrInvalidParameter)
  | Some _ =>
  e <- match withEventer opts, withEventerConfig opts with
       | None, None =>
           fail (ErrorfW (op +:+ ": missing both eventer and eventer config")
                   ErrInvalidParameter)
       | Some _, Some _ =>
           fail (ErrorfW (op +:+ ": both eventer and eventer config provided")
                   ErrInvalidParameter)
       | _, Some c =>
           mapErr (ErrorfW op) (NewEventer log serializationLock c getDefaultOptions)
       | Some e, None => ret e
       end ;;
  setSysEventer e
  end end.

(** [SysEventer()], under the read lock; [None] is the nil eventer. *)
Definition SysEventer : G (option Eventer) :=
  fun w => (Ok (sysEventer (store w)), w).

End Eventer.

(** ** Vocabulary of the statements about [eventer.go] *)

Definition mkPipeline (t : Type_) (j id : NodeID) (s : SinkConfig) : pipeline :=
  {| eventType := t; fmtId := j; sinkId := id; gateId := ""; sinkConfig := s |}.

Definition addIf (b : bool) (l : list pipeline) (p : pipeline) : list pipeline :=
  if b then l ++ [p] else l.

(** The node a sink configuration is turned into. *)
Definition sinkNodeOf (s : SinkConfig) : Node :=
  match sinkType s with
  | StderrSink => WriterSink (Format s)
  | _ => FileSinkNode (Format s) (Path s) (FileName s) (RotateBytes s)
           (RotateDuration s) (RotateMaxFiles s)
  end.

(** The pipelines of type [t] that the loop adds for the sinks [l], each
    paired with the identifier of its node. *)
Definition pick (t : Type_) (j : NodeID) (f : SinkConfig -> SinkConfig)
  (l : list (NodeID * SinkConfig)) : list pipeline :=
  map (fun x => mkPipeline t j (fst x) (f (snd x)))
    (filter (fun x => subscribesTo t (snd x) = true) l).

Definition gatedIds (g : NodeID) (p : pipeline) : list NodeID :=
  [g; fmtId p; sinkId p].

Definition directIds (p : pipeline) : list NodeID := [fmtId p; sinkId p].

(** [id] names a registered node of the kind [kind]. *)
Definition registeredAs (nodes : list (NodeID * Node)) (kind : Node -> bool)
  (id : NodeID) : Prop :=
  exists n, (id, n) ∈ nodes /\ kind n = true.

(** The three errors that report an enabled event type without a sink. *)
Definition lackOfSinks (x : goerror) : bool :=
  match x with
  | ErrorfW msg ErrInvalidParameter =>
      String.eqb msg (opNewEventer +:+ ": audit events enabled but no sink defined for it")
      || String.eqb msg
           (opNewEventer +:+ ": observation events enabled but no sink defined for it")
      || String.eqb msg (opNewEventer +:+ ": system events enabled but no sink defined for it")
  | _ => false
  end.

Definition isErrorf (x : goerror) : bool :=
  match x with Errorf _ => true | _ => false end.


Section Vocabulary.

Context {audit err sysEvent RequestInfo Logger Broker : Type}.

(** A computation that only ever appends to the trace. *)
Definition extendsTrace {A} (m : M Type_
    (payload (audit:=audit) (err:=err) (sysEvent:=sysEvent) (RequestInfo:=RequestInfo))
    (memory (RequestInfo:=RequestInfo) (Logger:=Logger) (Broker:=Broker)) A) : Prop :=
  forall w, exists new, trace (snd (m w)) = trace w ++ new.

(** Every call of [new] that is a send hands over the payload [p] with the
    Observation type. *)
Definition sendsOnly (p : payload (audit:=audit) (err:=err) (sysEvent:=sysEvent) (RequestInfo:=RequestInfo))
  (new : list (call Type_ payload)) : Prop :=
  forall x, x ∈ sendsOf new -> x = (ObservationType, p).

End Vocabulary.

End Event.

(** * The earlier eventer of the package

    One pipeline per event type, file sinks only, delivery guarantees taken
    from the configuration. *)

Module EventV0.

Definition FileSink : string := "file".
Definition JSONSinkFormat : string := "json".
Definition Enforced : string := "enforced".
Definition BestEffort : string := "best-effort".
Definition AuditPipeline : string := "audit-pipeline".
Definition InfoPipeline : string := "info-pipeline".
Definition ErrPipeline : string := "err-pipeline".

Inductive Type_ :=
| EveryType
| ErrorType
| AuditType
| InfoType
| OtherType (name : string).

Record SinkConfig := {
  Name : string;
  EventTypes : list Type_;
  sinkType : string;
  Format : string;
  Path : string;
  FileName : string;
  RotateBytes : Z;
  RotateDuration : Z;
  RotateMaxFiles : Z
}.

#[global] Instance Type0_eq_dec : EqDecision Type_.
Proof. solve_decision. Defined.

Definition selects (t x : Type_) : bool :=
  match x with
  | EveryType => true
  | _ => bool_decide (x = t)
  end.

Definition subscribesTo (t : Type_) (s : SinkConfig) : bool :=
  existsb (selects t) (EventTypes s).

Definition subscribers (t : Type_) (sinks : list SinkConfig) : list SinkConfig :=
  filter (fun s => subscribesTo t s = true) sinks.

Record Config := {
  AuditDelivery : string;
  InfoDelivery : string;
  AuditEnabled : bool;
  InfoEnabled : bool;
  Sinks : list SinkConfig
}.

Section Eventer.

(** The event structs [Info], [Err] and [Audit] and the logger are declared
    outside this file. *)
Context {Info_ Err_ Audit_ Logger : Type}.

(** What is handed to [Broker.Send]: a possibly nil pointer to an event. *)
Inductive payload :=
| InfoEvent (event : option Info_)
| ErrEvent (event : option Err_)
| AuditEvent (event : option Audit_).

Record Eventer := {
  conf : Config;
  logger : Logger
}.

Abbreviation G := (M Type_ payload unit).

Variable E : environment Type_ payload.

Record subscriptions := {
  addToAudit : bool;
  addToInfo : bool;
  addToErr : bool
}.

Definition noSubscriptions : subscriptions :=
  {| addToAudit := false; addToInfo := false; addToErr := false |}.

Definition subscribe (f : subscriptions) (t : Type_) : subscriptions :=
  match t with
  | EveryType => {| addToAudit := true; addToInfo := true; addToErr := true |}
  | ErrorType =>
      {| addToAudit := addToAudit f; addToInfo := addToInfo f; addToErr := true |}
  | AuditType =>
      {| addToAudit := true; addToInfo := addToInfo f; addToErr := addToErr f |}
  | InfoType =>
      {| addToAudit := addToAudit f; addToInfo := true; addToErr := addToErr f |}
  | OtherType _ => f
  end.

Record nodeIdSets := {
  auditNodeIds : list NodeID;
  infoNodeIds : list NodeID;
  errNodeIds : list NodeID
}.

Definition opNewEventer : string := "event.NewEventer".

(** The body of [for _, s := range c.Sinks]. *)
Definition sinkBody (acc : nodeIdSets) (s : SinkConfig) : G nodeIdSets :=
  let fileSinkNode :=
    FileSinkNode (Format s) (Path s) (FileName s) (RotateBytes s)
      (RotateDuration s) (RotateMaxFiles s) in
  sinkID <- mapErr (fun e => ErrorsWrap e opNewEventer)
              (newId E ("file_" +:+ Path s +:+ "_" +:+ FileName s +:+ "_")) ;;
  _ <- mapErr (fun e => ErrorsWrap e "failed to register json node")
         (invoke E (RegisterNode sinkID fileSinkNode)) ;;
  let f := fold_left subscribe (EventTypes s) noSubscriptions in
  ret {| auditNodeIds :=
           if addToAudit f then auditNodeIds acc ++ [sinkID] else auditNodeIds acc;
         infoNodeIds :=
           if addToInfo f then infoNodeIds acc ++ [sinkID] else infoNodeIds acc;
         errNodeIds :=
           if addToErr f then errNodeIds acc ++ [sinkID] else errNodeIds acc |}.

Definition defaultSink : SinkConfig :=
  {| Name := "default"; EventTypes := [EveryType]; sinkType := "";
     Format := JSONSinkFormat; Path := "./"; FileName := "foo.txt";
     RotateBytes := 0; RotateDuration := 0; RotateMaxFiles := 0 |}.

(** [if len(c.Sinks) == 0 { c.Sinks = append(c.Sinks, SinkConfig{...}) }] *)
Definition withDefaultSink (c : Config) : Config :=
  if decide (length (Sinks c) = 0)
  then {| AuditDelivery := AuditDelivery c; InfoDelivery := InfoDelivery c;
          AuditEnabled := AuditEnabled c; InfoEnabled := InfoEnabled c;
          Sinks := Sinks c ++ [defaultSink] |}
  else c.

Definition NewEventer (log : option Logger) (c : Config) : G Eventer :=
  match log with
  | None => fail (ErrorsNew "InvalidParameter" opNewEventer "missing logger")
  | Some log =>
  jsonfmtID <- mapErr (fun e => ErrorsWrap e opNewEventer) (newId E "json") ;;
  _ <- mapErr (fun e => ErrorsWrap e "failed to register json node")
         (invoke E (RegisterNode jsonfmtID JSONFormatter)) ;;
  let ids := {| auditNodeIds := [jsonfmtID]; infoNodeIds := [jsonfmtID];
                errNodeIds := [jsonfmtID] |} in
  let c := withDefaultSink c in
  ids <- foldM sinkBody (Sinks c) ids ;;
  _ <- mapErr (fun e => ErrorsWrap e "failed to register audit pipeline")
         (invoke E (RegisterPipeline
                      {| EventType := AuditType; PipelineID := AuditPipeline;
                         NodeIDs := auditNodeIds ids |})) ;;
  _ <- mapErr (fun e => ErrorsWrap e "failed to register info pipeline")
         (invoke E (RegisterPipeline
                      {| EventType := InfoType; PipelineID := InfoPipeline;
                         NodeIDs := infoNodeIds ids |})) ;;
  _ <- mapErr (fun e => ErrorsWrap e "failed to register error pipeline")
         (invoke E (RegisterPipeline
                      {| EventType := ErrorType; PipelineID := ErrPipeline;
                         NodeIDs := errNodeIds ids |})) ;;
  _ <- (if decide (AuditDelivery c = Enforced) then
          _ <- mapErr (fun e => ErrorsWrap e "failed to set success threshold for audit events")
                 (invoke E (SetSuccessThreshold AuditType
                              (Z.of_nat (length (auditNodeIds ids))))) ;;
          ret tt
        else ret tt) ;;
  _ <- (if decide (InfoDelivery c = Enforced) then
          _ <- mapErr (fun e => ErrorsWrap e "failed to set success threshold for info events")
                 (invoke E (SetSuccessThreshold InfoType
                              (Z.of_nat (length (infoNodeIds ids))))) ;;
          ret tt
        else ret tt) ;;
  _ <- mapErr (fun e => ErrorsWrap e "failed to set success threshold for error events")
         (invoke E (SetSuccessThreshold ErrorType
                      (Z.of_nat (length (errNodeIds ids))))) ;;
  ret {| conf := c; logger := log |}
  end.

(** The common tail of [Info], [Error] and [Audit]: send, log the error
    and wrap it, or log the warnings. *)
Definition sendAndLog (op what : string) (t : Type_) (event : payload) : G unit :=
  fun w =>
    match invoke E (Send t event) w with
    | (Err e, w') =>
        (Err (ErrorsWrap e op),
         record (LoggerError ("encountered an error sending an " +:+ what +:+ " event") e) w')
    | (Ok st, w') =>
        if (0 <? length (Warnings st))%nat
        then (Ok tt, record (LoggerWarn ("encountered warnings send " +:+ what +:+ " event")
                               (Warnings st)) w')
        else (Ok tt, w')
    end.

Definition Info (e : Eventer) (event : option Info_) : G unit :=
  if negb (InfoEnabled (conf e)) then ret tt
  else sendAndLog "event.(Eventer).Info" "info" InfoType (InfoEvent event).

Definition Error (e : Eventer) (event : option Err_) : G unit :=
  sendAndLog "event.(Eventer).Error" "error" ErrorType (ErrEvent event).

Definition Audit (e : Eventer) (event : option Audit_) : G unit :=
  if negb (AuditEnabled (conf e)) then ret tt
  else sendAndLog "event.(Eventer).Audit" "audit" InfoType (AuditEvent event).

(** [AuditDeliveryGuaranteed] and [InfoDeliveryGuaranteed] *)
Definition AuditDeliveryGuaranteed (e : Eventer) : bool :=
  bool_decide (AuditDelivery (conf e) = Enforced).

Definition InfoDeliveryGuaranteed (e : Eventer) : bool :=
  bool_decide (InfoDelivery (conf e) = Enforced).

(** [SetAuditEnabled] and [SetInfoEnabled] assign a field of [e.conf]
    through the receiver pointer; the eventer after the call is returned. *)
Definition SetAuditEnabled (e : Eventer) (enabled : bool) : Eventer :=
  {| conf := {| AuditDelivery := AuditDelivery (conf e);
                InfoDelivery := InfoDelivery (conf e);
                AuditEnabled := enabled;
                InfoEnabled := InfoEnabled (conf e);
                Sinks := Sinks (conf e) |};
     logger := logger e |}.

Definition SetInfoEnabled (e : Eventer) (enabled : bool) : Eventer :=
  {| conf := {| AuditDelivery := AuditDelivery (conf e);
                InfoDelivery := InfoDelivery (conf e);
                AuditEnabled := AuditEnabled (conf e);
                InfoEnabled := enabled;
                Sinks := Sinks (conf e) |};
     logger := logger e |}.

End Eventer.

(** ** Vocabulary of the statements about the earlier eventer *)

(** The file sink node built for a sink configuration. *)
Definition fileNodeOf (s : SinkConfig) : Node :=
  FileSinkNode (Format s) (Path s) (FileName s) (RotateBytes s)
    (RotateDuration s) (RotateMaxFiles s).

(** The identifiers of the sinks of [l] subscribed to [t]. *)
Definition chosen (t : Type_) (l : list (NodeID * SinkConfig)) : list NodeID :=
  map fst (filter (fun x => subscribesTo t (snd x) = true) l).

Section Vocabulary.

Context {Info_ Err_ Audit_ : Type}.

(** The outcome [r] of a method started in the world [w] that hands the
    event [ev] to the broker once, with the type [t]: the trace has grown
    by calls of which exactly one is a send; the method returns nil when
    the broker accepted the send; when the broker refused it, the refusal
    is logged as the last call and returned wrapped with [op]. *)
Definition deliveredOnce
  (E : environment Type_ (payload (Info_:=Info_) (Err_:=Err_) (Audit_:=Audit_)))
  (op what : string) (t : Type_) (ev : payload)
  (w : world Type_ payload unit) (r : result unit * world Type_ payload unit) : Prop :=
  exists new,
    trace (snd r) = trace w ++ new /\
    sendsOf new = [(t, ev)] /\
    match fst r with
    | Ok _ => refusal E (trace w) (Send t ev) = None
    | Err x =>
        exists cause,
          refusal E (trace w) (Send t ev) = Some cause /\
          x = ErrorsWrap cause op /\
          last new
          = Some (LoggerError ("encountered an error sending an " +:+ what +:+ " event")
                    cause)
    end.

End Vocabulary.

End EventV0.

(** * [internal/auth/oidc/ids.go] *)

Module Oidc.

Definition AuthMethodPrefix : string := "amoidc".
Definition AccountPrefix : string := "acctoidc".
Definition Subtype : string := "oidc".

(** The error code [errors.InvalidParameter]. *)
Definition InvalidParameter : string := "InvalidParameter".

Section Ids.

(** [db.NewPublicId] and [intglobals.OidcManagedGroupPrefix] are declared
    outside this file.  Each function below calls [db.NewPublicId] at most
    once, so it is given by what that call returns for the prefix and for
    the values handed to [db.WithPrngValues], if any. *)
Variable NewPublicId : string -> option (list string) -> result string.
Variable OidcManagedGroupPrefix : string.

Definition newAuthMethodId : result string :=
  let op := "oidc.newAuthMethodId" in
  match NewPublicId AuthMethodPrefix None with
  | Err e => Err (ErrorsWrap e op)
  | Ok id => Ok id
  end.

Definition newAccountId (authMethodId issuer sub : string) : result string :=
  let op := "oidc.newAccountId" in
  if decide (authMethodId = "") then
    Err (ErrorsNew InvalidParameter op "missing auth method id")
  else if decide (issuer = "") then
    Err (ErrorsNew InvalidParameter op "missing issuer")
  else if decide (sub = "") then
    Err (ErrorsNew InvalidParameter op "missing subject")
  else
    match NewPublicId AccountPrefix (Some [authMethodId; issuer; sub]) with
    | Err e => Err (ErrorsWrap e op)
    | Ok id => Ok id
    end.

Definition newManagedGroupId : result string :=
  let op := "oidc.newManagedGroupId" in
  match NewPublicId OidcManagedGroupPrefix None with
  | Err e => Err (ErrorsWrap e op)
  | Ok id => Ok id
  end.

End Ids.

End Oidc.

(** * Sample environments and inputs *)

Module Samples.

(** An environment that issues the identifier [prefix_n] as the [n]-th call
    and accepts every call. *)
Definition accepted : response := {| status := {| Warnings := [] |}; failure := None |}.

Definition acceptAll {T P : Type} : environment T P :=
  {| idSource := fun t prefix => Ok (prefix +:+ "_" +:+ pretty (length t));
     respond := fun _ _ => accepted |}.



End Samples.

Module EventSamples.

Import Event Samples.

Abbreviation P :=
  (payload (audit:=unit) (err:=unit) (sysEvent:=unit) (RequestInfo:=string)).
Abbreviation Mem := (memory (RequestInfo:=string) (Logger:=unit) (Broker:=unit)).
Abbreviation Ev := (Eventer (Logger:=unit) (Broker:=unit)).

Definition emptyWorld : world Type_ P Mem :=
  {| trace := []; store := {| observations := ∅; sysEventer := None |} |}.

(** A [Validate] that accepts every configuration. *)
Definition accepts (c : EventerConfig) : option goerror := None.

(** A context that is never cancelled. *)
Definition background : list (call Type_ P) -> option goerror := fun _ => None.

(** Every delivery error is worth a retry. *)
Definition alwaysTransient (x : goerror) : bool := true.

Definition fileSink (types : list Type_) (path fileName : string) : SinkConfig :=
  {| Name := "file"; EventTypes := types; sinkType := FileSink;
     Format := JSONSinkFormat; Path := path; FileName := fileName;
     RotateBytes := 0; RotateDuration := 0; RotateMaxFiles := 0 |}.

(** Two file sinks with the same path and the same file name. *)
Definition duplicateSinks : EventerConfig :=
  {| AuditEnabled := false; ObservationsEnabled := true; SysEventsEnabled := true;
     Sinks := [fileSink [EveryType] "/var/log" "events.log";
               fileSink [EveryType] "/var/log" "events.log"] |}.

Definition noSinks : EventerConfig :=
  {| AuditEnabled := true; ObservationsEnabled := true; SysEventsEnabled := true;
     Sinks := [] |}.

(** Audit events enabled, but the only sink takes error events. *)
Definition auditWithoutSink : EventerConfig :=
  {| AuditEnabled := true; ObservationsEnabled := false; SysEventsEnabled := false;
     Sinks := [fileSink [ErrorType] "/var/log" "errors.log"] |}.

(** An eventer with two gated filters, as built for the default
    configuration. *)
Definition defaultEventer : Ev :=
  {| broker := NewBroker; flushableNodes := [0; 1]; conf := DefaultEventerConfig;
     logger := tt; auditPipelines := []; observationPipelines := [];
     errPipelines := [] |}.

Definition silentEventer : Ev :=
  {| broker := NewBroker; flushableNodes := []; 
     conf := {| AuditEnabled := false; ObservationsEnabled := false;
                SysEventsEnabled := false; Sinks := [DefaultSink] |};
     logger := tt; auditPipelines := []; observationPipelines := [];
     errPipelines := [] |}.

(** An eventer with audit events enabled. *)
Definition auditingEventer : Ev :=
  {| broker := NewBroker; flushableNodes := [0; 1];
     conf := {| AuditEnabled := true; ObservationsEnabled := true;
                SysEventsEnabled := true; Sinks := [DefaultSink] |};
     logger := tt; auditPipelines := []; observationPipelines := [];
     errPipelines := [] |}.

(** An observation whose header and detail maps are nil. *)
Definition bareObservation : observation :=
  {| Payload := {| ID := "1"; Flush := false; Header := None; Detail := None |};
     Version := "v0.1"; Op := "Handler"; RequestInfo_ := Some "request-1" |}.

(** An observation with empty header and detail maps. *)
Definition emptyObservation : observation :=
  {| Payload := {| ID := "1"; Flush := false; Header := Some ∅; Detail := Some ∅ |};
     Version := "v0.1"; Op := "Handler"; RequestInfo_ := Some "request-1" |}.

Definition worldWith (ev : observation) (singleton : option Ev) : world Type_ P Mem :=
  {| trace := [];
     store := {| observations := {[ 0 := ev ]}; sysEventer := singleton |} |}.

Definition withConfig (c : EventerConfig) : options (Logger:=unit) (Broker:=unit) :=
  {| withEventer := None; withEventerConfig := Some c; withBroker := None;
     withNow := 0 |}.

End EventSamples.

Module EventV0Samples.

Import EventV0 Samples.

Abbreviation P := (payload (Info_:=unit) (Err_:=unit) (Audit_:=unit)).
Abbreviation Ev := (Eventer (Logger:=unit)).

Definition emptyWorld : world Type_ P unit := {| trace := []; store := tt |}.

Definition fileSink (types : list Type_) (path fileName : string) : SinkConfig :=
  {| Name := "file"; EventTypes := types; sinkType := FileSink;
     Format := JSONSinkFormat; Path := path; FileName := fileName;
     RotateBytes := 0; RotateDuration := 0; RotateMaxFiles := 0 |}.

(** Best-effort audit and info delivery, one sink for error events. *)
Definition oneErrorSink : Config :=
  {| AuditDelivery := BestEffort; InfoDelivery := BestEffort;
     AuditEnabled := true; InfoEnabled := true;
     Sinks := [fileSink [ErrorType] "/var/log" "errors.log"] |}.

(** Enforced audit delivery, one sink for every event type. *)
Definition enforcedAudit : Config :=
  {| AuditDelivery := Enforced; InfoDelivery := BestEffort;
     AuditEnabled := true; InfoEnabled := true;
     Sinks := [fileSink [EveryType] "/var/log" "events.log"] |}.

Definition noSinks : Config :=
  {| AuditDelivery := BestEffort; InfoDelivery := BestEffort;
     AuditEnabled := true; InfoEnabled := true; Sinks := [] |}.

Definition auditing : Ev := {| conf := enforcedAudit; logger := tt |}.

End EventV0Samples.

(** * Facts about the monad *)

Section RuntimeFacts.

Context {EvT Payload Store : Type}.
Variable E : environment EvT Payload.

Implicit Types (w : world EvT Payload Store).

Lemma bind_Ok_inv {A B} (m : M EvT Payload Store A) (f : A -> M EvT Payload Store B) w b w' :
  bind m f w = (Ok b, w') ->
  exists a w1, m w = (Ok a, w1) /\ f a w1 = (Ok b, w').
Proof.
  unfold bind. destruct (m w) as [[a|e] w1]; [eauto | discriminate].
Qed.

Lemma mapErr_Ok_inv {A} g (m : M EvT Payload Store A) w a w' :
  mapErr g m w = (Ok a, w') -> m w = (Ok a, w').
Proof.
  unfold mapErr. destruct (m w) as [[x|e] w1]; congruence.
Qed.

Lemma invoke_Ok_inv c w st w' :
  invoke E c w = (Ok st, w') -> w' = record c w.
Proof.
  unfold invoke. destruct (failure _); congruence.
Qed.

Lemma invoke_world c w : snd (invoke E c w) = record c w.
Proof. unfold invoke. destruct (failure _); reflexivity. Qed.

Lemma newId_world prefix w : snd (newId E prefix w) = record (NewId prefix) w.
Proof. reflexivity. Qed.

Lemma newId_Ok_inv prefix w (id : string) w' :
  newId E prefix w = (Ok id, w') -> w' = record (NewId prefix) w.
Proof. unfold newId. congruence. Qed.

Lemma keepsStore_ret {A} (a : A) : keepsStore (ret a : M EvT Payload Store A).
Proof. intros w; reflexivity. Qed.

Lemma keepsStore_fail {A} e : keepsStore (@fail EvT Payload Store A e).
Proof. intros w; reflexivity. Qed.

Lemma keepsStore_emit c : keepsStore (emit c : M EvT Payload Store unit).
Proof. intros w; reflexivity. Qed.

Lemma keepsStore_invoke c : keepsStore (invoke E c : M EvT Payload Store Status).
Proof. intros w. rewrite invoke_world. reflexivity. Qed.

Lemma keepsStore_newId prefix :
  keepsStore (newId E prefix : M EvT Payload Store string).
Proof. intros w; reflexivity. Qed.

Lemma keepsStore_mapErr {A} g (m : M EvT Payload Store A) :
  keepsStore m -> keepsStore (mapErr g m).
Proof.
  intros Hm w. specialize (Hm w). unfold mapErr.
  destruct (m w) as [[a|e] w1]; exact Hm.
Qed.

Lemma keepsStore_bind {A B} (m : M EvT Payload Store A) (f : A -> M EvT Payload Store B) :
  keepsStore m -> (forall a, keepsStore (f a)) -> keepsStore (bind m f).
Proof.
  intros Hm Hf w. specialize (Hm w). unfold bind.
  destruct (m w) as [[a|e] w1]; simpl in *.
  - rewrite Hf. exact Hm.
  - exact Hm.
Qed.

Lemma keepsStore_foldM {A B} (body : A -> B -> M EvT Payload Store A) l :
  (forall a x, keepsStore (body a x)) -> forall a, keepsStore (foldM body l a).
Proof.
  intros Hb. induction l as [|x l IH]; intros a; simpl.
  - apply keepsStore_ret.
  - apply keepsStore_bind; auto.
Qed.

Lemma failsOnlyWith_ret {A} P (a : A) :
  failsOnlyWith P (ret a : M EvT Payload Store A).
Proof. intros w x w' H. discriminate. Qed.

Lemma failsOnlyWith_emit P c :
  failsOnlyWith P (emit c : M EvT Payload Store unit).
Proof. intros w x w' H. discriminate. Qed.

Lemma failsOnlyWith_fail {A} (P : goerror -> Prop) e :
  P e -> failsOnlyWith P (@fail EvT Payload Store A e).
Proof. intros HP w x w' H. inversion H; subst. exact HP. Qed.

Lemma failsOnlyWith_mapErr {A} (P : goerror -> Prop) g (m : M EvT Payload Store A) :
  (forall e, P (g e)) -> failsOnlyWith P (mapErr g m).
Proof.
  intros HP w x w'. unfold mapErr.
  destruct (m w) as [[a|e] w1]; intros H; inversion H; subst. apply HP.
Qed.

Lemma failsOnlyWith_bind {A B} (P : goerror -> Prop) (Q : A -> Prop)
  (m : M EvT Payload Store A) (f : A -> M EvT Payload Store B) :
  failsOnlyWith P m ->
  (forall w a w', m w = (Ok a, w') -> Q a) ->
  (forall a, Q a -> failsOnlyWith P (f a)) ->
  failsOnlyWith P (bind m f).
Proof.
  intros Hm HQ Hf w x w'. unfold bind.
  destruct (m w) as [[a|e] w1] eqn:Hmw; intros H.
  - eapply Hf; eauto.
  - inversion H; subst. eapply Hm; eauto.
Qed.

Lemma failsOnlyWith_foldM {A B} (P : goerror -> Prop)
  (body : A -> B -> M EvT Payload Store A) l :
  (forall a x, failsOnlyWith P (body a x)) ->
  forall a, failsOnlyWith P (foldM body l a).
Proof.
  intros Hb. induction l as [|x l IH]; intros a; simpl.
  - apply failsOnlyWith_ret.
  - apply failsOnlyWith_bind with (Q := fun _ => True); auto.
Qed.

Lemma trace_record c w : trace (record c w) = trace w ++ [c].
Proof. reflexivity. Qed.

Lemma store_record c w : store (record c w) = store w.
Proof. reflexivity. Qed.

End RuntimeFacts.

(** Inversion of a successful run, one bind at a time. *)
Ltac go_inv H :=
  repeat match type of H with
  | bind _ _ _ = (Ok _, _) =>
      let a := fresh "a" in let w1 := fresh "w" in
      let H1 := fresh "Hstep" in
      apply bind_Ok_inv in H; destruct H as (a & w1 & H1 & H)
  end.



(** * Facts about [eventer.go] *)

Module EventFacts.

Import Event.

Section Facts.

Context {audit err sysEvent RequestInfo Logger Mutex Broker : Type}.

Local Abbreviation P :=
  (payload (audit:=audit) (err:=err) (sysEvent:=sysEvent) (RequestInfo:=RequestInfo)).
Local Abbreviation Mem :=
  (memory (RequestInfo:=RequestInfo) (Logger:=Logger) (Broker:=Broker)).

Local Abbreviation Opts := (options (Logger:=Logger) (Broker:=Broker)).
Local Abbreviation Ev := (Eventer (Logger:=Logger) (Broker:=Broker)).

Variable E : environment Type_ P.
Variable Validate : EventerConfig -> option goerror.
Variable stdRetryCount : nat.
Variable transient : goerror -> bool.

Implicit Types (w : world Type_ P Mem).

(** ** Subscriptions *)

Lemma addToAudit_fold l f :
  addToAudit (fold_left subscribe l f) = addToAudit f || existsb (selects AuditType) l.
Proof.
  revert f. induction l as [|t l IH]; intros f; simpl.
  - now rewrite orb_false_r.
  - rewrite IH. destruct t; simpl; try reflexivity;
      now rewrite ?orb_true_r, ?orb_false_r.
Qed.

Lemma addToObservation_fold l f :
  addToObservation (fold_left subscribe l f)
  = addToObservation f || existsb (selects ObservationType) l.
Proof.
  revert f. induction l as [|t l IH]; intros f; simpl.
  - now rewrite orb_false_r.
  - rewrite IH. destruct t; simpl; try reflexivity;
      now rewrite ?orb_true_r, ?orb_false_r.
Qed.

Lemma addToErr_fold l f :
  addToErr (fold_left subscribe l f) = addToErr f || existsb (selects ErrorType) l.
Proof.
  revert f. induction l as [|t l IH]; intros f; simpl.
  - now rewrite orb_false_r.
  - rewrite IH. destruct t; simpl; try reflexivity;
      now rewrite ?orb_true_r, ?orb_false_r.
Qed.

Lemma addToSys_fold l f :
  addToSys (fold_left subscribe l f) = addToSys f || existsb (selects SystemType) l.
Proof.
  revert f. induction l as [|t l IH]; intros f; simpl.
  - now rewrite orb_false_r.
  - rewrite IH. destruct t; simpl; try reflexivity;
      now rewrite ?orb_true_r, ?orb_false_r.
Qed.

(** ** The loop over the sinks *)

Lemma isSink_sinkNodeOf s : isSink (sinkNodeOf s) = true.
Proof. unfold sinkNodeOf. destruct (sinkType s); reflexivity. Qed.

Lemma buildSink_Ok s w id n w' :
  buildSink E ∅ s w = (Ok (id, n), w') ->
  exists prefix, w' = record (NewId prefix) w /\ n = sinkNodeOf s.
Proof.
  unfold buildSink, sinkNodeOf. rewrite lookup_empty.
  destruct (sinkType s); intros H; go_inv H;
    apply mapErr_Ok_inv, newId_Ok_inv in Hstep; inversion H; subst; eauto.
Qed.

Lemma sinkBody_Ok j acc s w acc' w' :
  sinkBody E j ∅ acc s w = (Ok acc', w') ->
  exists prefix id,
    trace w' = trace w ++ [NewId prefix; RegisterNode id (sinkNodeOf s)] /\
    store w' = store w /\
    auditPs acc' = addIf (subscribesTo AuditType s) (auditPs acc) (mkPipeline AuditType j id s) /\
    observationPs acc'
    = addIf (subscribesTo ObservationType s) (observationPs acc)
        (mkPipeline ObservationType j id s) /\
    errPs acc' = addIf (subscribesTo ErrorType s) (errPs acc) (mkPipeline ErrorType j id s) /\
    sysPs acc'
    = addIf (subscribesTo SystemType s) (sysPs acc) (mkPipeline SystemType j id zeroSinkConfig).
Proof.
  unfold sinkBody. intros H. go_inv H.
  destruct a as [id n]. apply buildSink_Ok in Hstep as (prefix & -> & ->).
  apply mapErr_Ok_inv, invoke_Ok_inv in Hstep0. subst. simpl in H.
  inversion H; subst; clear H. exists prefix, id. simpl.
  rewrite addToAudit_fold, addToObservation_fold, addToErr_fold, addToSys_fold.
  simpl. rewrite <- app_assoc. simpl. repeat split; reflexivity.
Qed.

Lemma addIf_pick t j f s b l id cfg rest :
  b = subscribesTo t s -> cfg = f s ->
  addIf b l (mkPipeline t j id cfg) ++ pick t j f rest
  = l ++ pick t j f ((id, s) :: rest).
Proof.
  intros -> ->. unfold pick, addIf. rewrite filter_cons. simpl.
  destruct (subscribesTo t s) eqn:Hs.
  - rewrite decide_True by reflexivity. simpl. now rewrite <- app_assoc.
  - rewrite decide_False by discriminate. reflexivity.
Qed.

Lemma sink_loop_Ok j sinks : forall acc w ps w',
  foldM (sinkBody E j ∅) sinks acc w = (Ok ps, w') ->
  exists new ids,
    trace w' = trace w ++ new /\
    store w' = store w /\
    thresholdsOf new = [] /\
    pipelinesOf new = [] /\
    length ids = length sinks /\
    nodesOf new = zip ids (map sinkNodeOf sinks) /\
    auditPs ps = auditPs acc ++ pick AuditType j id (zip ids sinks) /\
    observationPs ps = observationPs acc ++ pick ObservationType j id (zip ids sinks) /\
    errPs ps = errPs acc ++ pick ErrorType j id (zip ids sinks) /\
    sysPs ps = sysPs acc ++ pick SystemType j (fun _ => zeroSinkConfig) (zip ids sinks).
Proof.
  induction sinks as [|s sinks IH]; intros acc w ps w' H; simpl in H.
  - inversion H; subst. exists [], []. simpl. rewrite !app_nil_r. tauto.
  - go_inv H.
    apply sinkBody_Ok in Hstep
      as (prefix & sid & Ht & Hs & Ha & Ho & He & Hy).
    apply IH in H as (new & ids & Ht' & Hs' & Hth & Hp & Hl & Hn & Ha' & Ho' & He' & Hy').
    exists ([NewId prefix; RegisterNode sid (sinkNodeOf s)] ++ new), (sid :: ids).
    rewrite Ht', Ht, Hs', Hs, Ha', Ho', He', Hy', Ha, Ho, He, Hy.
    unfold thresholdsOf, pipelinesOf, nodesOf in *.
    rewrite !omap_app, Hth, Hp, Hn. simpl. rewrite Hl.
    rewrite <- app_assoc.
    rewrite (addIf_pick AuditType j id s), (addIf_pick ObservationType j id s),
      (addIf_pick ErrorType j id s),
      (addIf_pick SystemType j (fun _ => zeroSinkConfig) s) by reflexivity.
    repeat split; reflexivity.
Qed.

Lemma length_pick t j f ids sinks :
  length ids = length sinks ->
  length (pick t j f (zip ids sinks)) = length (subscribers t sinks).
Proof.
  unfold pick, subscribers. rewrite length_map.
  revert ids. induction sinks as [|s sinks IH]; intros [|i ids] Hl;
    simpl in *; try discriminate; try reflexivity.
  rewrite !filter_cons. simpl. destruct (subscribesTo t s).
  - rewrite !decide_True by reflexivity. simpl. f_equal. apply IH. lia.
  - rewrite !decide_False by discriminate. apply IH. lia.
Qed.

Lemma pick_shape t j f l p :
  p ∈ pick t j f l ->
  eventType p = t /\ fmtId p = j /\ sinkId p ∈ map fst l.
Proof.
  unfold pick. intros Hp. apply list_elem_of_fmap in Hp as (x & -> & Hx).
  apply list_elem_of_filter in Hx as [_ Hx]. simpl. repeat split.
  apply list_elem_of_fmap. eauto.
Qed.

(** ** The loops that register pipelines *)

Lemma gateBody_Ok idPrefix name msg fl p w fl' w' :
  gateBody E idPrefix name msg fl p w = (Ok fl', w') ->
  exists g pid,
    trace w' = trace w ++
      [NewId idPrefix; RegisterNode g (GatedFilter (length fl)); NewId name;
       RegisterPipeline {| EventType := eventType p; PipelineID := pid;
                           NodeIDs := gatedIds g p |}] /\
    store w' = store w /\
    fl' = fl ++ [length fl].
Proof.
  unfold gateBody. intros H. go_inv H.
  apply mapErr_Ok_inv, newId_Ok_inv in Hstep.
  apply mapErr_Ok_inv, invoke_Ok_inv in Hstep0.
  apply mapErr_Ok_inv, newId_Ok_inv in Hstep1.
  apply mapErr_Ok_inv, invoke_Ok_inv in Hstep2.
  inversion H; subst. exists a, a1. simpl.
  rewrite <- !app_assoc. simpl. repeat split; reflexivity.
Qed.

Lemma gate_loop_Ok idPrefix name msg ps : forall fl w fl' w',
  foldM (gateBody E idPrefix name msg) ps fl w = (Ok fl', w') ->
  exists new gs,
    trace w' = trace w ++ new /\
    store w' = store w /\
    thresholdsOf new = [] /\
    length gs = length ps /\
    nodesOf new = zip gs (map GatedFilter (seq (length fl) (length ps))) /\
    fl' = fl ++ seq (length fl) (length ps) /\
    map (@EventType _) (pipelinesOf new) = map eventType ps /\
    map (@NodeIDs _) (pipelinesOf new) = zip_with gatedIds gs ps.
Proof.
  induction ps as [|p ps IH]; intros fl w fl' w' H; simpl in H.
  - inversion H; subst. exists [], []. simpl. rewrite !app_nil_r. tauto.
  - go_inv H. apply gateBody_Ok in Hstep as (g & pid & Ht & Hs & ->).
    apply IH in H as (new & gs & Ht' & Hs' & Hth & Hl & Hn & -> & He & Hi).
    exists ([NewId idPrefix; RegisterNode g (GatedFilter (length fl)); NewId name;
             RegisterPipeline {| EventType := eventType p; PipelineID := pid;
                                 NodeIDs := gatedIds g p |}] ++ new), (g :: gs).
    rewrite Ht', Ht, Hs', Hs. rewrite <- !app_assoc.
    unfold thresholdsOf, pipelinesOf, nodesOf in *.
    rewrite !omap_app, Hth, Hn. simpl. rewrite He, Hi, Hl.
    rewrite length_app. simpl.
    replace (length fl + 1) with (S (length fl)) by lia.
    repeat split; reflexivity.
Qed.

Lemma directBody_Ok name msg ids p w ids' w' :
  directBody E name msg ids p w = (Ok ids', w') ->
  exists pid,
    trace w' = trace w ++
      [NewId name;
       RegisterPipeline {| EventType := eventType p; PipelineID := pid;
                           NodeIDs := directIds p |}] /\
    store w' = store w /\
    ids' = ids ++ [sinkId p].
Proof.
  unfold directBody. intros H. go_inv H.
  apply mapErr_Ok_inv, newId_Ok_inv in Hstep.
  apply mapErr_Ok_inv, invoke_Ok_inv in Hstep0.
  inversion H; subst. exists a. simpl.
  rewrite <- !app_assoc. simpl. repeat split; reflexivity.
Qed.

Lemma direct_loop_Ok name msg ps : forall ids w ids' w',
  foldM (directBody E name msg) ps ids w = (Ok ids', w') ->
  exists new,
    trace w' = trace w ++ new /\
    store w' = store w /\
    thresholdsOf new = [] /\
    nodesOf new = [] /\
    ids' = ids ++ map sinkId ps /\
    map (@EventType _) (pipelinesOf new) = map eventType ps /\
    map (@NodeIDs _) (pipelinesOf new) = map directIds ps.
Proof.
  induction ps as [|p ps IH]; intros ids w ids' w' H; simpl in H.
  - inversion H; subst. exists []. simpl. rewrite !app_nil_r. tauto.
  - go_inv H. apply directBody_Ok in Hstep as (pid & Ht & Hs & ->).
    apply IH in H as (new & Ht' & Hs' & Hth & Hn & -> & He & Hi).
    exists ([NewId name;
             RegisterPipeline {| EventType := eventType p; PipelineID := pid;
                                 NodeIDs := directIds p |}] ++ new).
    rewrite Ht', Ht, Hs', Hs. rewrite <- !app_assoc.
    unfold thresholdsOf, pipelinesOf, nodesOf in *.
    rewrite !omap_app, Hth, Hn. simpl. rewrite He, Hi.
    repeat split; reflexivity.
Qed.

Lemma requireSinks_Ok c ps w a w' :
  requireSinks c ps w = (Ok a, w') -> w' = w.
Proof.
  unfold requireSinks.
  repeat match goal with |- context [if ?b then _ else _] => destruct b end;
    intros H; inversion H; reflexivity.
Qed.

(** ** What a successful construction has done *)

Lemma NewEventer_Ok (log : option Logger) (lock : option Mutex) c opts w e w' :
  NewEventer E Validate log lock c opts w = (Ok e, w') ->
  exists new j ids gs,
    let sinks := Sinks (withDefaultSink c) in
    let sysP := pick SystemType j (fun _ => zeroSinkConfig) (zip ids sinks) in
    let gated := auditPipelines e ++ observationPipelines e in
    trace w' = trace w ++ new /\
    store w' = store w /\
    conf e = withDefaultSink c /\
    length ids = length sinks /\
    auditPipelines e = pick AuditType j id (zip ids sinks) /\
    observationPipelines e = pick ObservationType j id (zip ids sinks) /\
    errPipelines e = pick ErrorType j id (zip ids sinks) /\
    length gs = length gated /\
    flushableNodes e = seq 0 (length gated) /\
    thresholdsOf new = [(ErrorType, Z.of_nat (length (errPipelines e)))] /\
    nodesOf new
    = (j, JSONFormatter) :: zip ids (map sinkNodeOf sinks)
        ++ zip gs (map GatedFilter (seq 0 (length gated))) /\
    map (@EventType _) (pipelinesOf new)
    = map eventType (gated ++ errPipelines e ++ sysP) /\
    map (@NodeIDs _) (pipelinesOf new)
    = zip_with gatedIds gs gated ++ map directIds (errPipelines e ++ sysP).
Proof.
  unfold NewEventer. intros H.
  destruct log as [lg|]; [|discriminate].
  destruct lock as [lk|]; [|discriminate].
  destruct (Validate (withDefaultSink c)) as [ve|]; [discriminate|].
  go_inv H.
  assert (Hw0 : exists pre, trace w0 = trace w ++ pre /\ store w0 = store w /\
            thresholdsOf pre = [] /\ nodesOf pre = [] /\ pipelinesOf pre = []).
  { destruct (withNow opts =? 0)%Z; inversion Hstep; subst.
    - exists []. rewrite app_nil_r. tauto.
    - exists [StopTimeAt (withNow opts)]. simpl. tauto. }
  destruct Hw0 as (pre & Ht0 & Hs0 & Hth0 & Hn0 & Hp0).
  apply mapErr_Ok_inv, newId_Ok_inv in Hstep0.
  apply mapErr_Ok_inv, invoke_Ok_inv in Hstep1.
  apply sink_loop_Ok in Hstep2
    as (new2 & ids & Ht2 & Hs2 & Hth2 & Hp2 & Hl2 & Hn2 & Ha & Ho & He & Hy).
  simpl in Ha, Ho, He, Hy.
  apply requireSinks_Ok in Hstep3. subst w4.
  apply gate_loop_Ok in Hstep4
    as (newA & gsA & HtA & HsA & HthA & HlA & HnA & -> & HeA & HiA).
  apply gate_loop_Ok in Hstep5
    as (newO & gsO & HtO & HsO & HthO & HlO & HnO & -> & HeO & HiO).
  apply direct_loop_Ok in Hstep6
    as (newE & HtE & HsE & HthE & HnE & -> & HeE & HiE).
  apply direct_loop_Ok in Hstep7
    as (newS & HtS & HsS & HthS & HnS & -> & HeS & HiS).
  apply mapErr_Ok_inv, invoke_Ok_inv in Hstep8.
  inversion H; subst e w' w9 w2 w1; clear H. simpl in *.
  rewrite length_seq in HnO.
  exists (pre ++ [NewId "json"; RegisterNode a0 JSONFormatter] ++ new2 ++ newA
          ++ newO ++ newE ++ newS
          ++ [SetSuccessThreshold ErrorType (Z.of_nat (length (map sinkId (errPs a2))))]),
    a0, ids, (gsA ++ gsO).
  rewrite HtS, HtE, HtO, HtA, Ht2, HsS, HsE, HsO, HsA, Hs2. simpl.
  rewrite Ht0, Hs0.
  unfold thresholdsOf, pipelinesOf, nodesOf in *.
  rewrite !omap_app. simpl. rewrite !omap_app.
  rewrite Hth0, Hn0, Hp0, Hth2, Hn2, Hp2, HthA, HnA, HthO, HnO, HthE, HnE, HthS, HnS.
  simpl. rewrite !map_app, HeA, HeO, HeE, HeS, HiA, HiO, HiE, HiS.
  rewrite Ha, Ho, He, Hy, !length_map, !length_app, length_seq.
  rewrite seq_app, map_app, zip_with_app
    by (rewrite length_map, length_seq; congruence).
  rewrite (zip_with_app gatedIds) by congruence.
  rewrite <- !app_assoc. simpl.
  rewrite <- Ha, <- Ho.
  rewrite ?app_nil_r.
  repeat split; try reflexivity; [exact Hl2 | congruence].
Qed.

(** ** Consequences for the registered nodes and pipelines *)

Lemma eventType_pick t j f l :
  map eventType (pick t j f l) = replicate (length (pick t j f l)) t.
Proof.
  unfold pick. induction (filter _ l) as [|x xs IH]; simpl; [reflexivity|].
  now rewrite IH.
Qed.

Lemma filter_isGate_sinks (ids : list NodeID) sinks :
  filter (fun x => isGate (snd x) = true) (zip ids (map sinkNodeOf sinks)) = [].
Proof.
  revert ids. induction sinks as [|s sinks IH]; intros [|i ids]; simpl; try reflexivity.
  rewrite filter_cons, decide_False; [apply IH|].
  simpl. unfold sinkNodeOf. destruct (sinkType s); discriminate.
Qed.

Lemma filter_isGate_gates (gs : list NodeID) addrs :
  filter (fun x => isGate (snd x) = true) (zip gs (map GatedFilter addrs))
  = zip gs (map GatedFilter addrs).
Proof.
  revert gs. induction addrs as [|a addrs IH]; intros [|g gs]; simpl; try reflexivity.
  rewrite filter_cons, decide_True by reflexivity. now rewrite IH.
Qed.

Lemma filter_isSink_sinks (ids : list NodeID) sinks :
  filter (fun x => isSink (snd x) = true) (zip ids (map sinkNodeOf sinks))
  = zip ids (map sinkNodeOf sinks).
Proof.
  revert ids. induction sinks as [|s sinks IH]; intros [|i ids]; simpl; try reflexivity.
  rewrite filter_cons, decide_True by apply isSink_sinkNodeOf. now rewrite IH.
Qed.

Lemma filter_isSink_gates (gs : list NodeID) addrs :
  filter (fun x => isSink (snd x) = true) (zip gs (map GatedFilter addrs)) = [].
Proof.
  revert gs. induction addrs as [|a addrs IH]; intros [|g gs]; simpl; try reflexivity.
  rewrite filter_cons, decide_False by discriminate. apply IH.
Qed.

Lemma registeredAs_mono nodes nodes' kind id :
  nodes ⊆ nodes' -> registeredAs nodes kind id -> registeredAs nodes' kind id.
Proof. intros Hsub (n & Hn & Hk). exists n. split; auto. Qed.

Lemma sink_registered (ids : list NodeID) sinks id :
  id ∈ map fst (zip ids sinks) ->
  registeredAs (zip ids (map sinkNodeOf sinks)) isSink id.
Proof.
  revert ids. induction sinks as [|s sinks IH]; intros [|i ids]; simpl;
    try (intros H; now apply elem_of_nil in H).
  intros H. apply elem_of_cons in H as [->|H].
  - exists (sinkNodeOf s). split; [left | apply isSink_sinkNodeOf].
  - destruct (IH _ H) as (n & Hn & Hk). exists n. split; [now right | exact Hk].
Qed.

Lemma gated_shapes (Q : pipeline -> Prop) gs : forall gated (defs : list (Pipeline Type_)),
  length gs = length gated ->
  map (@NodeIDs _) defs = zip_with gatedIds gs gated ->
  Forall Q gated ->
  Forall2 (fun g def => exists p, Q p /\ NodeIDs def = gatedIds g p) gs defs.
Proof.
  induction gs as [|g gs IH]; intros [|p gated] [|d defs] Hl Hm HQ;
    simpl in *; try discriminate; constructor.
  - inversion Hm. inversion HQ; subst. eauto.
  - inversion Hm. inversion HQ; subst. apply IH with gated; auto.
Qed.

Lemma direct_shapes (Q : pipeline -> Prop) ps : forall (defs : list (Pipeline Type_)),
  map (@NodeIDs _) defs = map directIds ps ->
  Forall Q ps ->
  Forall (fun def => exists p, Q p /\ NodeIDs def = directIds p) defs.
Proof.
  induction ps as [|p ps IH]; intros [|d defs] Hm HQ;
    simpl in *; try discriminate; constructor.
  - inversion Hm. inversion HQ; subst. eauto.
  - inversion Hm. inversion HQ; subst. apply IH; auto.
Qed.

Lemma Forall2_elem_l {A B} (R : A -> B -> Prop) l k :
  Forall2 R l k -> Forall2 (fun x y => x ∈ l /\ R x y) l k.
Proof.
  induction 1 as [|x y l k HR HF IH]; constructor.
  - split; [left | exact HR].
  - eapply Forall2_impl; [exact IH|]. intros a b [Ha Hab]. split; [now right | exact Hab].
Qed.

Lemma gate_registered (gs : list NodeID) addrs g :
  length gs = length addrs -> g ∈ gs ->
  registeredAs (zip gs (map GatedFilter addrs)) isGate g.
Proof.
  revert addrs. induction gs as [|x gs IH]; intros [|a addrs] Hl Hg;
    simpl in *; try discriminate; try (now apply elem_of_nil in Hg).
  apply elem_of_cons in Hg as [->|Hg].
  - exists (GatedFilter a). split; [left | reflexivity].
  - destruct (IH addrs) as (n & Hn & Hk); [lia | exact Hg |].
    exists n. split; [now right | exact Hk].
Qed.

(** C7 (as amended, for the constructor of eventer.go): the pipelines
    registered by a successful [NewEventer] are, in order, one per sink
    subscribed to Audit, one per sink subscribed to Observation, one per
    sink subscribed to Error and one per sink subscribed to System.  Each
    Audit or Observation pipeline has the node list [gate; formatter; sink]
    where the gate is a gated filter registered for this pipeline alone
    (the filters have pairwise distinct addresses and are the flushable
    nodes of the eventer); each Error or System pipeline has the node list
    [formatter; sink], and no gated filter is registered beyond those of
    the Audit and Observation pipelines. *)
Theorem NewEventer_pipeline_shapes (log : option Logger) (lock : option Mutex)
  c opts w e w' :
  NewEventer E Validate log lock c opts w = (Ok e, w') ->
  exists new gs,
    let sinks := Sinks (conf e) in
    let nA := length (subscribers AuditType sinks) in
    let nO := length (subscribers ObservationType sinks) in
    let nE := length (subscribers ErrorType sinks) in
    let nS := length (subscribers SystemType sinks) in
    let nodes := nodesOf new in
    let defs := pipelinesOf new in
    trace w' = trace w ++ new /\
    map (@EventType _) defs
    = replicate nA AuditType ++ replicate nO ObservationType
        ++ replicate nE ErrorType ++ replicate nS SystemType /\
    length gs = nA + nO /\
    filter (fun x => isGate (snd x) = true) nodes
    = zip gs (map GatedFilter (seq 0 (nA + nO))) /\
    flushableNodes e = seq 0 (nA + nO) /\
    Forall2 (fun g def =>
               exists f s, NodeIDs def = [g; f; s] /\
                 registeredAs nodes isGate g /\
                 registeredAs nodes isFormatter f /\
                 registeredAs nodes isSink s)
      gs (take (nA + nO) defs) /\
    Forall (fun def =>
              exists f s, NodeIDs def = [f; s] /\
                registeredAs nodes isFormatter f /\
                registeredAs nodes isSink s)
      (drop (nA + nO) defs).
Proof.
  intros H. apply NewEventer_Ok in H
    as (new & j & ids & gs & Ht & Hs & Hc & Hl & Ha & Ho & He & Hg & Hf & Hth & Hn & Hty & Hid).
  exists new, gs. cbv zeta. rewrite Hc.
  set (sinks := Sinks (withDefaultSink c)) in *.
  assert (HlA : length (auditPipelines e) = length (subscribers AuditType sinks))
    by (rewrite Ha; now apply length_pick).
  assert (HlO : length (observationPipelines e) = length (subscribers ObservationType sinks))
    by (rewrite Ho; now apply length_pick).
  assert (HlE : length (errPipelines e) = length (subscribers ErrorType sinks))
    by (rewrite He; now apply length_pick).
  rewrite length_app, HlA, HlO in Hg, Hf, Hn.
  set (n := length (subscribers AuditType sinks)
            + length (subscribers ObservationType sinks)) in *.
  assert (Hshape : forall t f p,
            p ∈ pick t j f (zip ids sinks) ->
            fmtId p = j /\ registeredAs (nodesOf new) isSink (sinkId p)).
  { intros t f p Hp. apply pick_shape in Hp as (_ & Hj & Hp). split; [exact Hj|].
    eapply registeredAs_mono; [|apply sink_registered; exact Hp].
    rewrite Hn. intros x Hx. right. apply elem_of_app. now left. }
  assert (Hfmt : registeredAs (nodesOf new) isFormatter j).
  { exists JSONFormatter. rewrite Hn. split; [left | reflexivity]. }
  assert (Hlz : length (zip_with gatedIds gs (auditPipelines e ++ observationPipelines e)) = n).
  { rewrite length_zip_with, length_app, HlA, HlO, Hg. fold n. lia. }
  repeat split.
  - exact Ht.
  - rewrite Hty, !map_app, Ha, Ho, He, !eventType_pick, <- Ha, <- Ho, <- He.
    rewrite HlA, HlO, HlE, length_pick by exact Hl. now rewrite <- !app_assoc.
  - exact Hg.
  - rewrite Hn, filter_cons, decide_False by discriminate.
    rewrite filter_app, filter_isGate_sinks, filter_isGate_gates. reflexivity.
  - exact Hf.
  - assert (Hm : map (@NodeIDs _) (take n (pipelinesOf new))
                 = zip_with gatedIds gs (auditPipelines e ++ observationPipelines e)).
    { rewrite <- firstn_map, Hid, take_app_length'; [reflexivity | now rewrite Hlz]. }
    eapply Forall2_impl.
    + apply Forall2_elem_l.
      apply gated_shapes
        with (Q := fun p => fmtId p = j /\ registeredAs (nodesOf new) isSink (sinkId p))
             (gated := auditPipelines e ++ observationPipelines e).
      * rewrite length_app, HlA, HlO. exact Hg.
      * exact Hm.
      * apply Forall_forall. intros p Hp. apply elem_of_app in Hp as [Hp|Hp].
        -- rewrite Ha in Hp. eapply Hshape; exact Hp.
        -- rewrite Ho in Hp. eapply Hshape; exact Hp.
    + intros g def (Hin & p & (Hj & Hsk) & Hnid). simpl in Hin.
      exists (fmtId p), (sinkId p). split; [exact Hnid|]. rewrite Hj. split; [|split; auto].
      eapply registeredAs_mono;
        [|apply gate_registered with (addrs := seq 0 n);
          [rewrite length_seq; exact Hg | exact Hin]].
      rewrite Hn. intros x Hx. right. apply elem_of_app. now right.
  - assert (Hm : map (@NodeIDs _) (drop n (pipelinesOf new))
                 = map directIds
                     (errPipelines e
                      ++ pick SystemType j (fun _ => zeroSinkConfig) (zip ids sinks))).
    { rewrite <- skipn_map, Hid, drop_app_length'; [reflexivity | now rewrite Hlz]. }
    eapply Forall_impl.
    + apply direct_shapes
        with (Q := fun p => fmtId p = j /\ registeredAs (nodesOf new) isSink (sinkId p))
             (ps := errPipelines e
                    ++ pick SystemType j (fun _ => zeroSinkConfig) (zip ids sinks));
        [exact Hm|].
      apply Forall_forall. intros p Hp. apply elem_of_app in Hp as [Hp|Hp].
      * rewrite He in Hp. eapply Hshape; exact Hp.
      * eapply Hshape; exact Hp.
    + intros def (p & (Hj & Hsk) & Hnid).
      exists (fmtId p), (sinkId p). split; [exact Hnid|]. rewrite Hj. auto.
Qed.

(** ** The success threshold *)

(** A successful [NewEventer] sets exactly one success threshold, for the
    Error type, to the number of sinks subscribed to error events: the
    formatter is not counted, and no threshold is set for any other
    type. *)
Lemma NewEventer_error_threshold (log : option Logger) (lock : option Mutex)
  c opts w e w' :
  NewEventer E Validate log lock c opts w = (Ok e, w') ->
  exists new,
    trace w' = trace w ++ new /\
    thresholdsOf new
    = [(ErrorType, Z.of_nat (length (subscribers ErrorType (Sinks (conf e)))))].
Proof.
  intros H. apply NewEventer_Ok in H
    as (new & j & ids & gs & Ht & Hs & Hc & Hl & Ha & Ho & He & Hg & Hf & Hth & _).
  exists new. split; [exact Ht|].
  rewrite Hth, Hc, He, length_pick by exact Hl. reflexivity.
Qed.

(** ** The errors of the constructor *)

Ltac fails_only :=
  repeat first
    [ apply failsOnlyWith_ret
    | apply failsOnlyWith_emit
    | apply failsOnlyWith_mapErr; intros []; reflexivity
    | apply failsOnlyWith_fail; reflexivity
    | apply failsOnlyWith_foldM; intros ? ?
    | apply failsOnlyWith_bind with (Q := fun _ => True); [ | tauto | intros ? _ ] ].

Lemma buildSink_fails (bad : goerror -> bool) s :
  (forall e, bad (ErrorfW opNewEventer e) = false) ->
  failsOnlyWith (Store := Mem) (fun x => bad x = false) (buildSink E ∅ s).
Proof.
  intros HP. unfold buildSink. rewrite lookup_empty.
  destruct (sinkType s);
    (apply failsOnlyWith_bind with (Q := fun _ => True);
     [apply failsOnlyWith_mapErr; intros ?; apply HP | tauto
     | intros ? _; apply failsOnlyWith_ret]).
Qed.

Lemma NewEventer_never_Errorf (log : option Logger) (lock : option Mutex) c
  (opts : Opts) :
  failsOnlyWith (fun x => isErrorf x = false) (NewEventer E Validate log lock c opts).
Proof.
  unfold NewEventer.
  destruct log; [|fails_only]. destruct lock; [|fails_only].
  destruct (Validate _); [fails_only|].
  apply failsOnlyWith_bind with (Q := fun _ => True); [|tauto|intros ? _].
  { destruct (withNow opts =? 0)%Z; fails_only. }
  fails_only.
  - apply buildSink_fails. reflexivity.
  - unfold requireSinks.
    repeat match goal with |- context [if ?b then _ else _] => destruct b end;
      fails_only.
Qed.

(** ** The default sink *)

Lemma withDefaultSink_empty c :
  Sinks c = [] -> Sinks (withDefaultSink c) = [DefaultSink].
Proof. intros Hc. unfold withDefaultSink. rewrite Hc. reflexivity. Qed.

Lemma withDefaultSink_flags c :
  AuditEnabled (withDefaultSink c) = AuditEnabled c /\
  ObservationsEnabled (withDefaultSink c) = ObservationsEnabled c /\
  SysEventsEnabled (withDefaultSink c) = SysEventsEnabled c.
Proof. unfold withDefaultSink. destruct (decide _); simpl; auto. Qed.

Lemma default_sink_pipelines j w ps w' :
  foldM (sinkBody E j ∅) [DefaultSink] noPipelines w = (Ok ps, w') ->
  length (auditPs ps) = 1 /\ length (observationPs ps) = 1 /\ length (sysPs ps) = 1.
Proof.
  intros H. apply sink_loop_Ok in H
    as (new & ids & _ & _ & _ & _ & Hl & _ & Ha & Ho & _ & Hy).
  rewrite Ha, Ho, Hy. simpl. rewrite !length_pick by exact Hl.
  repeat split; reflexivity.
Qed.

(** C8 (as amended, for the constructor of eventer.go): with no sink in
    the configuration, [NewEventer] goes on with the single sink
    [DefaultSink], a stderr sink subscribed to every event type: it never
    returns one of the errors that report an enabled type without a sink,
    and when it succeeds the eventer's configuration holds exactly that
    sink and the only sink node registered is a writer on stderr. *)
Theorem NewEventer_default_sink (log : option Logger) (lock : option Mutex) c
  (opts : Opts) :
  Sinks c = [] ->
  sinkType DefaultSink = StderrSink /\
  EventTypes DefaultSink = [EveryType] /\
  (forall t, subscribesTo t DefaultSink = true) /\
  (forall w x w',
     NewEventer E Validate log lock c opts w = (Err x, w') -> lackOfSinks x = false) /\
  (forall w e w',
     NewEventer E Validate log lock c opts w = (Ok e, w') ->
     Sinks (conf e) = [DefaultSink] /\
     exists new id,
       trace w' = trace w ++ new /\
       filter (fun x => isSink (snd x) = true) (nodesOf new)
       = [(id, WriterSink JSONSinkFormat)]).
Proof.
  intros Hc. split; [reflexivity|]. split; [reflexivity|]. split; [reflexivity|]. split.
  - change (failsOnlyWith (fun x => lackOfSinks x = false)
              (NewEventer E Validate log lock c opts)).
    unfold NewEventer.
    destruct log; [|fails_only]. destruct lock; [|fails_only].
    destruct (Validate _) as [ve|]; [apply failsOnlyWith_fail; now destruct ve|].
    rewrite (withDefaultSink_empty _ Hc).
    apply failsOnlyWith_bind with (Q := fun _ => True); [|tauto|intros ? _].
    { destruct (withNow opts =? 0)%Z; fails_only. }
    apply failsOnlyWith_bind with (Q := fun _ => True); [|tauto|intros j _].
    { apply failsOnlyWith_mapErr. intros []; reflexivity. }
    apply failsOnlyWith_bind with (Q := fun _ => True); [|tauto|intros ? _].
    { apply failsOnlyWith_mapErr. intros []; reflexivity. }
    apply failsOnlyWith_bind
      with (Q := fun ps => length (auditPs ps) = 1 /\ length (observationPs ps) = 1
                           /\ length (sysPs ps) = 1).
    + fails_only. apply buildSink_fails. intros []; reflexivity.
    + intros w ps w' H. eapply default_sink_pipelines; exact H.
    + intros ps (Ha & Ho & Hy).
      apply failsOnlyWith_bind with (Q := fun _ => True); [|tauto|intros ? _].
      { unfold requireSinks. rewrite Ha, Ho, Hy. simpl. rewrite !andb_false_r.
        apply failsOnlyWith_ret. }
      fails_only.
  - intros w e w' H. apply NewEventer_Ok in H
      as (new & j & ids & gs & Ht & Hs & Hcf & Hl & _ & _ & _ & _ & _ & _ & Hn & _).
    cbv zeta in *. rewrite (withDefaultSink_empty _ Hc) in *.
    split; [now rewrite Hcf, (withDefaultSink_empty _ Hc)|].
    destruct ids as [|i [|i' ids]]; simpl in Hl; try discriminate.
    exists new, i. split; [exact Ht|].
    rewrite Hn, filter_cons, decide_False by discriminate.
    rewrite filter_app, filter_isSink_gates, app_nil_r. simpl.
    rewrite filter_cons, decide_True by reflexivity. reflexivity.
Qed.

(** ** The singleton *)

Ltac keeps_store :=
  repeat first
    [ apply keepsStore_ret | apply keepsStore_fail | apply keepsStore_emit
    | apply keepsStore_invoke | apply keepsStore_newId
    | apply keepsStore_mapErr
    | apply keepsStore_foldM; intros ? ?
    | apply keepsStore_bind; [ | intros ? ] ].

Lemma keepsStore_NewEventer (log : option Logger) (lock : option Mutex) c
  (opts : Opts) :
  keepsStore (NewEventer E Validate log lock c opts).
Proof.
  unfold NewEventer.
  destruct log; [|keeps_store]. destruct lock; [|keeps_store].
  destruct (Validate _); [keeps_store|].
  apply keepsStore_bind; [destruct (withNow opts =? 0)%Z; keeps_store | intros ?].
  keeps_store.
  - unfold buildSink. rewrite lookup_empty. destruct (sinkType _); keeps_store.
  - unfold requireSinks.
    repeat match goal with |- context [if ?b then _ else _] => destruct b end;
      keeps_store.
Qed.

(** C10: when [InitSysEventer] returns an error, the package variable
    [sysEventer] is what it was before the call, so [SysEventer()] returns
    the same eventer as before. *)
Theorem InitSysEventer_error_keeps_singleton (log : option Logger)
  (lock : option Mutex) (opts : Opts) w x w' :
  InitSysEventer E Validate log lock opts w = (Err x, w') ->
  sysEventer (store w') = sysEventer (store w) /\
  fst (SysEventer w') = fst (SysEventer w).
Proof.
  intros H.
  assert (Hs : sysEventer (store w') = sysEventer (store w)).
  { unfold InitSysEventer in H.
    destruct log as [lg|]; [|inversion H; reflexivity].
    destruct lock as [lk|]; [|inversion H; reflexivity].
    unfold bind in H.
    destruct (withEventer opts) as [ev|], (withEventerConfig opts) as [cfg|];
      try (inversion H; reflexivity).
    unfold mapErr in H.
    pose proof (keepsStore_NewEventer (Some lg) (Some lk) cfg getDefaultOptions w) as Hk.
    destruct (NewEventer E Validate (Some lg) (Some lk) cfg getDefaultOptions w)
      as [[e|x0] w1]; simpl in Hk; inversion H; subst. now rewrite Hk. }
  split; [exact Hs|]. unfold SysEventer. simpl. now rewrite Hs.
Qed.

(** A successful [InitSysEventer] installs an eventer. *)
Lemma InitSysEventer_Ok_installs (log : option Logger) (lock : option Mutex)
  (opts : Opts) w w' :
  InitSysEventer E Validate log lock opts w = (Ok tt, w') ->
  exists e, sysEventer (store w') = Some e.
Proof.
  unfold InitSysEventer. destruct log; [|discriminate]. destruct lock; [|discriminate].
  intros H. go_inv H. inversion H; subst. simpl. eauto.
Qed.

(** ** Retrying and the write methods *)

Lemma extendsTrace_invoke c : extendsTrace (invoke E c : M Type_ P Mem Status).
Proof. intros w. rewrite invoke_world. exists [c]. reflexivity. Qed.

Lemma retryFrom_extends ctx (sendFn : M Type_ P Mem Status) :
  extendsTrace sendFn ->
  forall remaining attempt, extendsTrace (retryFrom transient ctx attempt remaining sendFn).
Proof.
  intros Hs. induction remaining as [|n IH]; intros attempt w; simpl.
  - exists []. now rewrite app_nil_r.
  - destruct (Hs w) as (new & Hnew).
    destruct (sendFn w) as [[st|x] w1]; simpl in *; [eauto|].
    destruct (transient x); [|eauto].
    destruct n as [|n]; [eauto|].
    destruct (ctx (trace w1)); [eauto|].
    destruct (IH (S attempt) (record (Sleep attempt) w1)) as (new' & Hnew').
    exists (new ++ Sleep attempt :: new').
    rewrite Hnew', trace_record, Hnew, <- !app_assoc. reflexivity.
Qed.

(** The first thing a retried broker call does is the call itself. *)
Lemma retryFrom_invoke_first ctx c remaining attempt w :
  exists rest,
    trace (snd (retryFrom transient ctx attempt (S remaining) (invoke E c) w))
    = trace w ++ c :: rest.
Proof.
  simpl. pose proof (invoke_world E c w) as Hw.
  destruct (invoke E c w) as [[st|x] w1]; simpl in *; subst w1.
  - exists []. reflexivity.
  - destruct (transient x); [|exists []; reflexivity].
    destruct remaining as [|n]; [exists []; reflexivity|].
    destruct (ctx _); [exists []; reflexivity|].
    destruct (retryFrom_extends ctx (extendsTrace_invoke c) (S n) (S attempt)
                (record (Sleep attempt) (record c w))) as (new & Hnew).
    exists (Sleep attempt :: new). rewrite Hnew, !trace_record, <- !app_assoc.
    reflexivity.
Qed.

Lemma logFailure_trace msg op (m : M Type_ P Mem unit) w :
  exists tail,
    trace (snd (logFailure msg op m w)) = trace (snd (m w)) ++ tail /\
    sendsOf tail = [].
Proof.
  unfold logFailure. destruct (m w) as [[u|x] w1]; simpl.
  - exists []. now rewrite app_nil_r.
  - exists [LoggerError msg x]. split; reflexivity.
Qed.

Lemma logFailure_store msg op (m : M Type_ P Mem unit) w :
  store (snd (logFailure msg op m w)) = store (snd (m w)).
Proof. unfold logFailure. destruct (m w) as [[u|x] w1]; reflexivity. Qed.

(** C6: a disabled audit or observation write returns nil and leaves the
    world as it was, so the broker is not called; [writeError] reads no
    enabled flag and its first action is [Broker.Send] with the Error type
    and the event, whatever the configuration of the eventer. *)
Theorem disabled_writes_are_silent :
  0 < stdRetryCount ->
  (forall (e : Ev) ctx (event : audit) w,
     AuditEnabled (conf e) = false ->
     writeAudit E stdRetryCount transient e ctx (Some event) w = (Ok tt, w)) /\
  (forall (e : Ev) ctx (event : nat) w,
     ObservationsEnabled (conf e) = false ->
     writeObservation E stdRetryCount transient e ctx (Some event) w = (Ok tt, w)) /\
  (forall (e : Ev) ctx (event : err) w,
     exists rest,
       trace (snd (writeError E stdRetryCount transient e ctx (Some event) w))
       = trace w ++ Send ErrorType (ErrEvent event) :: rest).
Proof.
  intros Hpos. repeat split.
  - intros e ctx event w Hd. unfold writeAudit. now rewrite Hd.
  - intros e ctx event w Hd. unfold writeObservation. now rewrite Hd.
  - intros e ctx event w. unfold writeError, retrySend.
    destruct stdRetryCount as [|n]; [lia|].
    match goal with |- context [logFailure ?msg ?op ?m w] =>
      destruct (logFailure_trace msg op m w) as (tail & -> & _) end.
    destruct (retryFrom_invoke_first ctx (Send ErrorType (ErrEvent event)) n 1 w)
      as (rest & ->).
    exists (rest ++ tail). now rewrite <- app_assoc.
Qed.

(** With audit events enabled, the first action of [writeAudit] for a
    non-nil event is [Broker.Send] with the Audit type and the event. *)
Lemma writeAudit_sends_audit_type (e : Ev) ctx (event : audit) w :
  0 < stdRetryCount ->
  AuditEnabled (conf e) = true ->
  exists rest,
    trace (snd (writeAudit E stdRetryCount transient e ctx (Some event) w))
    = trace w ++ Send AuditType (AuditEvent event) :: rest.
Proof.
  intros Hpos He. unfold writeAudit, retrySend. rewrite He. simpl.
  destruct stdRetryCount as [|n]; [lia|].
  match goal with |- context [logFailure ?msg ?op ?m w] =>
    destruct (logFailure_trace msg op m w) as (tail & -> & _) end.
  destruct (retryFrom_invoke_first ctx (Send AuditType (AuditEvent event)) n 1 w)
    as (rest & ->).
  exists (rest ++ tail). now rewrite <- app_assoc.
Qed.

(** ** Flushing *)



(** ** Observations *)

Lemma stamp_idempotent (ev : observation (RequestInfo:=RequestInfo)) :
  stamp (stamp ev) = stamp ev.
Proof.
  unfold stamp. simpl. f_equal. f_equal.
  - destruct (Header (Payload ev)) as [h|]; [|reflexivity]. f_equal.
    apply map_eq. intros k. rewrite !lookup_insert.
    repeat case_decide; congruence.
  - destruct (Detail (Payload ev)) as [d|]; [|reflexivity]. f_equal.
    apply map_eq. intros k. rewrite !lookup_insert.
    repeat case_decide; congruence.
Qed.

(** What the stamping writes, and that it writes nothing else. *)
Lemma stamp_header (ev : observation (RequestInfo:=RequestInfo)) :
  match Header (Payload ev) with
  | Some h =>
      exists h', Header (Payload (stamp ev)) = Some h' /\
        h' !! RequestInfoField = Some (VRequestInfo (RequestInfo_ ev)) /\
        h' !! VersionField = Some (VString (Version ev)) /\
        forall k, k <> RequestInfoField -> k <> VersionField -> h' !! k = h !! k
  | None => Header (Payload (stamp ev)) = None
  end.
Proof.
  unfold stamp. simpl. destruct (Header (Payload ev)) as [h|]; [|reflexivity].
  eexists. split; [reflexivity|]. repeat split.
  - rewrite lookup_insert_ne by discriminate. apply lookup_insert_eq.
  - apply lookup_insert_eq.
  - intros k Hr Hv. rewrite !lookup_insert_ne by congruence. reflexivity.
Qed.

Lemma stamp_detail (ev : observation (RequestInfo:=RequestInfo)) :
  match Detail (Payload ev) with
  | Some d =>
      exists d', Detail (Payload (stamp ev)) = Some d' /\
        d' !! OpField = Some (VString (Op ev)) /\
        forall k, k <> OpField -> d' !! k = d !! k
  | None => Detail (Payload (stamp ev)) = None
  end.
Proof.
  unfold stamp. simpl. destruct (Detail (Payload ev)) as [d|]; [|reflexivity].
  eexists. split; [reflexivity|]. split.
  - apply lookup_insert_eq.
  - intros k Hk. rewrite lookup_insert_ne by congruence. reflexivity.
Qed.

Lemma sendObservation_step l ev w :
  observations (store w) !! l = Some ev ->
  trace (snd (sendObservation E l w))
  = trace w ++ [Send ObservationType (GatedPayload (Payload (stamp ev)))] /\
  observations (store (snd (sendObservation E l w))) !! l = Some (stamp ev).
Proof.
  intros Hl. unfold sendObservation. rewrite Hl. rewrite invoke_world. simpl.
  split; [reflexivity | apply lookup_insert_eq].
Qed.

Lemma retryFrom_S ctx attempt remaining (sendFn : M Type_ P Mem Status) w :
  retryFrom transient ctx attempt (S remaining) sendFn w
  = match sendFn w with
    | (Ok _, w') => (Ok tt, w')
    | (Err x, w') =>
        if transient x then
          match remaining with
          | 0 => (Err x, w')
          | S _ =>
              match ctx (trace w') with
              | Some cancelled => (Err cancelled, w')
              | None =>
                  retryFrom transient ctx (S attempt) remaining sendFn
                    (record (Sleep attempt) w')
              end
          end
        else (Err x, w')
    end.
Proof. reflexivity. Qed.

Lemma retryFrom_observation ctx l ev remaining : forall attempt w ev0,
  observations (store w) !! l = Some ev0 ->
  stamp ev0 = stamp ev ->
  exists new,
    trace (snd (retryFrom transient ctx attempt (S remaining) (sendObservation E l) w))
    = trace w ++ new /\
    sendsOf new <> [] /\
    sendsOnly (GatedPayload (Payload (stamp ev))) new /\
    observations
      (store (snd (retryFrom transient ctx attempt (S remaining) (sendObservation E l) w)))
      !! l = Some (stamp ev).
Proof.
  induction remaining as [|n IH]; intros attempt w ev0 Hl Hst;
    destruct (sendObservation_step l w Hl) as [Ht Hs]; rewrite Hst in Ht, Hs.
  - exists [Send ObservationType (GatedPayload (Payload (stamp ev)))].
    simpl. destruct (sendObservation E l w) as [[st|x] w1]; simpl in *;
      [|destruct (transient x)]; simpl;
      (split; [exact Ht|]; split; [discriminate|]; split; [|exact Hs]);
      intros y Hy; apply list_elem_of_singleton in Hy; exact Hy.
  - assert (Hone : sendsOnly (GatedPayload (Payload (stamp ev)) : P)
                     [Send ObservationType (GatedPayload (Payload (stamp ev)))]).
    { intros y Hy. apply list_elem_of_singleton in Hy. exact Hy. }
    rewrite retryFrom_S.
    destruct (sendObservation E l w) as [[st|x] w1]; simpl in Ht, Hs.
    + eexists. simpl. split; [exact Ht|]. split; [discriminate|]. split; auto.
    + destruct (transient x);
        [|eexists; simpl; split; [exact Ht|]; split; [discriminate|]; split; auto].
      destruct (ctx (trace w1));
        [eexists; simpl; split; [exact Ht|]; split; [discriminate|]; split; auto|].
      destruct (IH (S attempt) (record (Sleep attempt) w1) (stamp ev))
        as (new & Ht' & Hne & Ho & Hs'); [exact Hs | apply stamp_idempotent |].
      exists (Send ObservationType (GatedPayload (Payload (stamp ev)))
                :: Sleep attempt :: new).
      rewrite Ht', trace_record, Ht, <- !app_assoc. simpl.
      split; [reflexivity|]. split; [discriminate|]. split; [|exact Hs'].
      intros y Hy. unfold sendsOf in Hy. simpl in Hy.
      apply elem_of_cons in Hy as [->|Hy]; [reflexivity | now apply Ho].
Qed.

(** C9 (as amended): an enabled [writeObservation] of an observation [ev]
    sends at least once, and every send, the first and each retry, hands
    the broker the Observation type and the payload of the stamped event:
    when the header map is not nil it holds the request info under
    [request_info] and the version under [version], and when the detail
    map is not nil it holds the operation under [op]; other entries are
    unchanged and a nil map stays nil.  The event in memory is left
    stamped in the same way. *)
Theorem writeObservation_stamps (e : Ev) ctx l ev w :
  0 < stdRetryCount ->
  ObservationsEnabled (conf e) = true ->
  observations (store w) !! l = Some ev ->
  exists new p,
    trace (snd (writeObservation E stdRetryCount transient e ctx (Some l) w))
    = trace w ++ new /\
    sendsOf new <> [] /\
    (forall x, x ∈ sendsOf new -> x = (ObservationType, GatedPayload p)) /\
    observations
      (store (snd (writeObservation E stdRetryCount transient e ctx (Some l) w))) !! l
    = Some (stamp ev) /\
    p = Payload (stamp ev) /\
    match Header (Payload ev) with
    | Some h =>
        exists h', Header p = Some h' /\
          h' !! RequestInfoField = Some (VRequestInfo (RequestInfo_ ev)) /\
          h' !! VersionField = Some (VString (Version ev)) /\
          forall k, k <> RequestInfoField -> k <> VersionField -> h' !! k = h !! k
    | None => Header p = None
    end /\
    match Detail (Payload ev) with
    | Some d =>
        exists d', Detail p = Some d' /\
          d' !! OpField = Some (VString (Op ev)) /\
          forall k, k <> OpField -> d' !! k = d !! k
    | None => Detail p = None
    end.
Proof.
  intros Hpos He Hl. unfold writeObservation, retrySend. rewrite He. simpl.
  destruct stdRetryCount as [|n]; [lia|].
  destruct retryFrom_observation
    with (ctx := ctx) (remaining := n) (attempt := 1) (ev := ev) (ev0 := ev)
         (l := l) (w := w)
    as (new & Ht & Hne & Ho & Hs); [exact Hl | reflexivity |].
  match goal with |- context [logFailure ?msg ?op ?m w] =>
    destruct (logFailure_trace msg op m w) as (tail & Htl & Htail);
    pose proof (logFailure_store msg op m w) as Hst end.
  exists (new ++ tail), (Payload (stamp ev)).
  rewrite Htl, Ht, Hst, Hs, <- app_assoc.
  unfold sendsOf in *. rewrite omap_app, Htail, app_nil_r.
  repeat split; auto. apply stamp_header. apply stamp_detail.
Qed.

End Facts.
End EventFacts.

(** * Facts about the earlier eventer *)

Module EventV0Facts.

Import EventV0.

Section Facts.

Context {Info_ Err_ Audit_ Logger : Type}.

Local Abbreviation P := (payload (Info_:=Info_) (Err_:=Err_) (Audit_:=Audit_)).
Local Abbreviation Ev := (Eventer (Logger:=Logger)).

Variable E : environment Type_ P.

Implicit Types (w : world Type_ P unit).

Lemma V0_addToAudit_fold l f :
  addToAudit (fold_left subscribe l f) = addToAudit f || existsb (selects AuditType) l.
Proof.
  revert f. induction l as [|t l IH]; intros f; simpl.
  - now rewrite orb_false_r.
  - rewrite IH. destruct t; simpl; try reflexivity;
      now rewrite ?orb_true_r, ?orb_false_r.
Qed.

Lemma V0_addToInfo_fold l f :
  addToInfo (fold_left subscribe l f) = addToInfo f || existsb (selects InfoType) l.
Proof.
  revert f. induction l as [|t l IH]; intros f; simpl.
  - now rewrite orb_false_r.
  - rewrite IH. destruct t; simpl; try reflexivity;
      now rewrite ?orb_true_r, ?orb_false_r.
Qed.

Lemma V0_addToErr_fold l f :
  addToErr (fold_left subscribe l f) = addToErr f || existsb (selects ErrorType) l.
Proof.
  revert f. induction l as [|t l IH]; intros f; simpl.
  - now rewrite orb_false_r.
  - rewrite IH. destruct t; simpl; try reflexivity;
      now rewrite ?orb_true_r, ?orb_false_r.
Qed.

Lemma V0_chosen_cons t id s rest (l : list NodeID) :
  (if subscribesTo t s then l ++ [id] else l) ++ chosen t rest
  = l ++ chosen t ((id, s) :: rest).
Proof.
  unfold chosen. rewrite filter_cons. simpl.
  destruct (subscribesTo t s).
  - rewrite decide_True by reflexivity. simpl. now rewrite <- app_assoc.
  - rewrite decide_False by discriminate. reflexivity.
Qed.


Lemma V0_sinkBody_Ok acc s w acc' w' :
  sinkBody E acc s w = (Ok acc', w') ->
  exists prefix id,
    trace w' = trace w ++ [NewId prefix; RegisterNode id (fileNodeOf s)] /\
    auditNodeIds acc'
    = (if subscribesTo AuditType s then auditNodeIds acc ++ [id] else auditNodeIds acc) /\
    infoNodeIds acc'
    = (if subscribesTo InfoType s then infoNodeIds acc ++ [id] else infoNodeIds acc) /\
    errNodeIds acc'
    = (if subscribesTo ErrorType s then errNodeIds acc ++ [id] else errNodeIds acc).
Proof.
  unfold sinkBody. intros H. go_inv H.
  apply mapErr_Ok_inv, newId_Ok_inv in Hstep.
  apply mapErr_Ok_inv, invoke_Ok_inv in Hstep0. subst.
  inversion H; subst; clear H. eexists _, a. simpl.
  rewrite V0_addToAudit_fold, V0_addToInfo_fold, V0_addToErr_fold. simpl.
  rewrite <- app_assoc. repeat split; reflexivity.
Qed.

Lemma V0_sink_loop_Ok sinks : forall acc w ids' w',
  foldM (sinkBody E) sinks acc w = (Ok ids', w') ->
  exists new ids,
    trace w' = trace w ++ new /\
    thresholdsOf new = [] /\
    pipelinesOf new = [] /\
    length ids = length sinks /\
    nodesOf new = zip ids (map fileNodeOf sinks) /\
    auditNodeIds ids' = auditNodeIds acc ++ chosen AuditType (zip ids sinks) /\
    infoNodeIds ids' = infoNodeIds acc ++ chosen InfoType (zip ids sinks) /\
    errNodeIds ids' = errNodeIds acc ++ chosen ErrorType (zip ids sinks).
Proof.
  induction sinks as [|s sinks IH]; intros acc w ids' w' H; simpl in H.
  - inversion H; subst. exists [], []. simpl. unfold chosen. simpl.
    rewrite !app_nil_r. tauto.
  - go_inv H.
    apply V0_sinkBody_Ok in Hstep as (prefix & sid & Ht & Ha & Hi & He).
    apply IH in H as (new & ids & Ht' & Hth & Hp & Hl & Hn & Ha' & Hi' & He').
    exists ([NewId prefix; RegisterNode sid (fileNodeOf s)] ++ new), (sid :: ids).
    rewrite Ht', Ht, Ha', Hi', He', Ha, Hi, He.
    unfold thresholdsOf, pipelinesOf, nodesOf in *.
    rewrite !omap_app, Hth, Hp, Hn. simpl. rewrite Hl.
    rewrite <- app_assoc, !V0_chosen_cons.
    repeat split; reflexivity.
Qed.

Lemma V0_optional_threshold {Q : Prop} (d : Decision Q) g t n w u w' :
  (if d then (_ <- mapErr g (invoke E (SetSuccessThreshold t n)) ;; ret tt)
   else ret tt) w = (Ok u, w') ->
  trace w' = trace w ++ (if d then [SetSuccessThreshold t n] else []).
Proof.
  destruct d; intros H.
  - go_inv H. apply mapErr_Ok_inv, invoke_Ok_inv in Hstep.
    inversion H; subst. reflexivity.
  - inversion H; subst. now rewrite app_nil_r.
Qed.

(** What a successful construction has done. *)
Lemma V0_NewEventer_Ok (log : option Logger) c w (e : Ev) w' :
  NewEventer E log c w = (Ok e, w') ->
  exists new j ids,
    let sinks := Sinks (withDefaultSink c) in
    trace w' = trace w ++ new /\
    conf e = withDefaultSink c /\
    length ids = length sinks /\
    nodesOf new = (j, JSONFormatter) :: zip ids (map fileNodeOf sinks) /\
    pipelinesOf new
    = [ {| EventType := AuditType; PipelineID := AuditPipeline;
           NodeIDs := j :: chosen AuditType (zip ids sinks) |};
        {| EventType := InfoType; PipelineID := InfoPipeline;
           NodeIDs := j :: chosen InfoType (zip ids sinks) |};
        {| EventType := ErrorType; PipelineID := ErrPipeline;
           NodeIDs := j :: chosen ErrorType (zip ids sinks) |} ] /\
    thresholdsOf new
    = (if decide (AuditDelivery c = Enforced)
       then [(AuditType, Z.of_nat (S (length (chosen AuditType (zip ids sinks)))))]
       else [])
      ++ (if decide (InfoDelivery c = Enforced)
          then [(InfoType, Z.of_nat (S (length (chosen InfoType (zip ids sinks)))))]
          else [])
      ++ [(ErrorType, Z.of_nat (S (length (chosen ErrorType (zip ids sinks)))))].
Proof.
  unfold NewEventer. intros H. destruct log as [lg|]; [|discriminate].
  go_inv H.
  apply mapErr_Ok_inv, newId_Ok_inv in Hstep.
  apply mapErr_Ok_inv, invoke_Ok_inv in Hstep0.
  apply V0_sink_loop_Ok in Hstep1
    as (new1 & ids & Ht1 & Hth1 & Hp1 & Hl1 & Hn1 & Ha & Hi & He).
  simpl in Ha, Hi, He.
  apply mapErr_Ok_inv, invoke_Ok_inv in Hstep2.
  apply mapErr_Ok_inv, invoke_Ok_inv in Hstep3.
  apply mapErr_Ok_inv, invoke_Ok_inv in Hstep4.
  assert (HA : AuditDelivery (withDefaultSink c) = AuditDelivery c)
    by (unfold withDefaultSink; destruct (decide (length (Sinks c) = 0)); reflexivity).
  assert (HI : InfoDelivery (withDefaultSink c) = InfoDelivery c)
    by (unfold withDefaultSink; destruct (decide (length (Sinks c) = 0)); reflexivity).
  rewrite HA in Hstep5. rewrite HI in Hstep6.
  apply V0_optional_threshold in Hstep5 as H5.
  apply V0_optional_threshold in Hstep6 as H6.
  apply mapErr_Ok_inv, invoke_Ok_inv in Hstep7.
  inversion H; subst e w'; clear H. subst w8 w5 w4 w3 w1 w0.
  eexists _, a, ids. cbv zeta. rewrite !trace_record, H6, H5, !trace_record, Ht1.
  rewrite !trace_record, <- !app_assoc. simpl.
  split; [reflexivity|]. split; [reflexivity|]. split; [exact Hl1|].
  unfold thresholdsOf, pipelinesOf, nodesOf in *.
  destruct (decide (AuditDelivery c = Enforced)),
    (decide (InfoDelivery c = Enforced)); simpl; rewrite !omap_app; simpl;
    rewrite Hth1, Hp1, Hn1, Ha, Hi, He; simpl; rewrite ?app_nil_r;
    repeat split; reflexivity.
Qed.


(** An enabled [Audit] starts by sending the event with the Info type. *)
Lemma V0_Audit_sends_info_type (e : Ev) (event : option Audit_) w :
  AuditEnabled (conf e) = true ->
  exists rest,
    trace (snd (Audit E e event w)) = trace w ++ Send InfoType (AuditEvent event) :: rest.
Proof.
  intros He. unfold Audit, sendAndLog. rewrite He. simpl.
  pose proof (invoke_world E (Send InfoType (AuditEvent event)) w) as Hw.
  destruct (invoke E (Send InfoType (AuditEvent event)) w) as [[st|x] w1];
    simpl in Hw; subst w1.
  - destruct (0 <? length (Warnings st))%nat; simpl.
    + eexists [_]. now rewrite <- app_assoc.
    + exists []. reflexivity.
  - simpl. eexists [_]. now rewrite <- app_assoc.
Qed.

End Facts.
End EventV0Facts.

(** * Further facts about the monad *)

Section EmitFacts.

Context {EvT Payload Store : Type}.
Variable E : environment EvT Payload.
Variable Q : call EvT Payload -> Prop.

Lemma emitsOnly_ret {A} (a : A) : emitsOnly Q (ret a : M EvT Payload Store A).
Proof. intros w. exists []. simpl. rewrite app_nil_r. auto. Qed.

Lemma emitsOnly_fail {A} e : emitsOnly Q (fail e : M EvT Payload Store A).
Proof. intros w. exists []. simpl. rewrite app_nil_r. auto. Qed.

Lemma emitsOnly_emit c : Q c -> emitsOnly Q (emit c : M EvT Payload Store unit).
Proof. intros Hc w. exists [c]. simpl. auto. Qed.

Lemma emitsOnly_invoke c :
  Q c -> emitsOnly Q (invoke E c : M EvT Payload Store Status).
Proof. intros Hc w. rewrite invoke_world. exists [c]. simpl. auto. Qed.

Lemma emitsOnly_newId prefix :
  Q (NewId prefix) -> emitsOnly Q (newId E prefix : M EvT Payload Store string).
Proof. intros Hc w. exists [NewId prefix]. simpl. auto. Qed.

Lemma emitsOnly_mapErr {A} g (m : M EvT Payload Store A) :
  emitsOnly Q m -> emitsOnly Q (mapErr g m).
Proof.
  intros Hm w. destruct (Hm w) as (new & Ht & HQ). exists new.
  unfold mapErr. destruct (m w) as [[a|e] w1]; auto.
Qed.

Lemma emitsOnly_bind {A B} (m : M EvT Payload Store A)
  (f : A -> M EvT Payload Store B) :
  emitsOnly Q m -> (forall a, emitsOnly Q (f a)) -> emitsOnly Q (bind m f).
Proof.
  intros Hm Hf w. destruct (Hm w) as (new & Ht & HQ). unfold bind.
  destruct (m w) as [[a|e] w1]; simpl in *.
  - destruct (Hf a w1) as (new' & Ht' & HQ'). exists (new ++ new').
    rewrite Ht', Ht, app_assoc. split; [reflexivity | now apply Forall_app].
  - eauto.
Qed.

Lemma emitsOnly_foldM {A B} (body : A -> B -> M EvT Payload Store A) l :
  (forall a x, emitsOnly Q (body a x)) -> forall a, emitsOnly Q (foldM body l a).
Proof.
  intros Hb. induction l as [|x l IH]; intros a; simpl.
  - apply emitsOnly_ret.
  - apply emitsOnly_bind; auto.
Qed.

End EmitFacts.

Lemma setup_calls_neither_send_nor_flush {EvT Payload : Type}
  (new : list (call EvT Payload)) :
  Forall (fun c => isSetup c = true) new ->
  sendsOf new = [] /\ flushesOf new = [].
Proof.
  induction 1 as [|c new Hc _ [IHs IHf]]; [split; reflexivity|].
  unfold sendsOf, flushesOf in *. simpl.
  destruct c; try discriminate; simpl; auto.
Qed.

Ltac emits_only :=
  repeat first
    [ apply emitsOnly_ret | apply emitsOnly_fail
    | apply emitsOnly_emit; reflexivity
    | apply emitsOnly_invoke; reflexivity
    | apply emitsOnly_newId; reflexivity
    | apply emitsOnly_mapErr
    | apply emitsOnly_foldM; intros ? ?
    | apply emitsOnly_bind; [ | intros ? ] ].

Section RefusalFacts.

Context {EvT Payload Store : Type}.
Variable E : environment EvT Payload.
Variable wrapped : goerror -> goerror -> Prop.
Variable other : goerror -> Prop.








End RefusalFacts.


(** * Further facts about [eventer.go] *)

Module EventMore.

Import Event EventFacts.

Section Facts.

Context {audit err sysEvent RequestInfo Logger Mutex Broker : Type}.

Local Abbreviation P :=
  (payload (audit:=audit) (err:=err) (sysEvent:=sysEvent) (RequestInfo:=RequestInfo)).
Local Abbreviation Mem :=
  (memory (RequestInfo:=RequestInfo) (Logger:=Logger) (Broker:=Broker)).
Local Abbreviation Opts := (options (Logger:=Logger) (Broker:=Broker)).
Local Abbreviation Ev := (Eventer (Logger:=Logger) (Broker:=Broker)).

Variable E : environment Type_ P.
Variable Validate : EventerConfig -> option goerror.
Variable stdRetryCount : nat.
Variable transient : goerror -> bool.

Implicit Types (w : world Type_ P Mem).

(** ** What the constructor calls *)

Lemma emitsOnly_NewEventer (log : option Logger) (lock : option Mutex) c (opts : Opts) :
  emitsOnly (fun c => isSetup c = true) (NewEventer E Validate log lock c opts).
Proof.
  unfold NewEventer.
  destruct log; [|emits_only]. destruct lock; [|emits_only].
  destruct (Validate _); [emits_only|].
  apply emitsOnly_bind; [destruct (withNow opts =? 0)%Z; emits_only | intros ?].
  emits_only.
  - unfold buildSink. rewrite lookup_empty. destruct (sinkType _); emits_only.
  - unfold requireSinks.
    repeat match goal with |- context [if ?b then _ else _] => destruct b end;
      emits_only.
Qed.

(** Whether it succeeds or fails, [NewEventer] only asks for identifiers,
    freezes the clock and registers nodes, pipelines and a threshold: it
    sends no event, flushes no node, writes no log line and leaves the
    observations and the package variable [sysEventer] as they were. *)
Theorem NewEventer_only_configures (log : option Logger) (lock : option Mutex) c
  (opts : Opts) w :
  exists new,
    trace (snd (NewEventer E Validate log lock c opts w)) = trace w ++ new /\
    Forall (fun c => isSetup c = true) new /\
    sendsOf new = [] /\
    flushesOf new = [] /\
    store (snd (NewEventer E Validate log lock c opts w)) = store w.
Proof.
  destruct (emitsOnly_NewEventer log lock c opts w) as (new & Ht & Hall).
  exists new. destruct (setup_calls_neither_send_nor_flush Hall) as [Hs Hf].
  repeat split; auto. apply keepsStore_NewEventer.
Qed.

(** ** What a constructed eventer holds *)

Lemma requireSinks_Ok_inv c ps w a w' :
  requireSinks c ps w = (Ok a, w') ->
  (AuditEnabled c = true -> length (auditPs ps) <> 0) /\
  (ObservationsEnabled c = true -> length (observationPs ps) <> 0) /\
  (SysEventsEnabled c = true -> length (sysPs ps) <> 0).
Proof.
  unfold requireSinks.
  destruct (AuditEnabled c), (ObservationsEnabled c), (SysEventsEnabled c);
    destruct (length (auditPs ps)), (length (observationPs ps)), (length (sysPs ps));
    simpl; intros H; try discriminate; repeat split; intros; congruence.
Qed.

Lemma NewEventer_Ok_fields (log : option Logger) (lock : option Mutex) c
  (opts : Opts) w (e : Ev) w' :
  NewEventer E Validate log lock c opts w = (Ok e, w') ->
  log = Some (logger e) /\
  lock <> None /\
  Validate (withDefaultSink c) = None /\
  broker e = match withBroker opts with
             | Some b => SuppliedBroker b
             | None => NewBroker
             end /\
  let sinks := Sinks (withDefaultSink c) in
  (AuditEnabled c = true -> subscribers AuditType sinks <> []) /\
  (ObservationsEnabled c = true -> subscribers ObservationType sinks <> []) /\
  (SysEventsEnabled c = true -> subscribers SystemType sinks <> []).
Proof.
  unfold NewEventer. intros H.
  destruct log as [lg|]; [|discriminate].
  destruct lock as [lk|]; [|discriminate].
  destruct (Validate (withDefaultSink c)) as [ve|] eqn:Hv; [discriminate|].
  go_inv H.
  apply sink_loop_Ok in Hstep2
    as (new2 & ids & _ & _ & _ & _ & Hl & _ & Ha & Ho & _ & Hy).
  simpl in Ha, Ho, Hy.
  apply requireSinks_Ok_inv in Hstep3 as (Hra & Hro & Hrs).
  rewrite Ha, length_pick in Hra by exact Hl.
  rewrite Ho, length_pick in Hro by exact Hl.
  rewrite Hy, length_pick in Hrs by exact Hl.
  destruct (withDefaultSink_flags c) as (Hfa & Hfo & Hfs).
  rewrite Hfa in Hra. rewrite Hfo in Hro. rewrite Hfs in Hrs.
  inversion H; subst e; simpl.
  split; [reflexivity|]. split; [discriminate|]. split; [reflexivity|].
  split; [reflexivity|].
  repeat split; intros Hen Hnil.
  - apply Hra; [exact Hen | now rewrite Hnil].
  - apply Hro; [exact Hen | now rewrite Hnil].
  - apply Hrs; [exact Hen | now rewrite Hnil].
Qed.

(** An eventer that [NewEventer] returns has, for every enabled event type
    (Audit, Observation, System), at least one sink subscribed to the type
    in its configuration; its configuration is the given one, with
    [DefaultSink] as the only sink when none was given, its logger is the
    given logger and its broker is the one of [WithBroker], if supplied. *)
Theorem NewEventer_enabled_types_have_sinks (log : option Logger)
  (lock : option Mutex) c (opts : Opts) w (e : Ev) w' :
  NewEventer E Validate log lock c opts w = (Ok e, w') ->
  conf e = withDefaultSink c /\
  log = Some (logger e) /\
  broker e = match withBroker opts with
             | Some b => SuppliedBroker b
             | None => NewBroker
             end /\
  (AuditEnabled (conf e) = true -> subscribers AuditType (Sinks (conf e)) <> []) /\
  (ObservationsEnabled (conf e) = true ->
   subscribers ObservationType (Sinks (conf e)) <> []) /\
  (SysEventsEnabled (conf e) = true -> subscribers SystemType (Sinks (conf e)) <> []).
Proof.
  intros H. pose proof (NewEventer_Ok_fields _ _ _ _ _ H) as (Hlg & _ & _ & Hb & Ha & Ho & Hs).
  apply NewEventer_Ok in H as (_ & _ & _ & _ & _ & _ & Hc & _).
  destruct (withDefaultSink_flags c) as (Hfa & Hfo & Hfs).
  rewrite Hc, Hfa, Hfo, Hfs. cbv zeta in *. repeat split; assumption.
Qed.

Lemma sinkConfig_pick t j (ids : list NodeID) sinks :
  length ids = length sinks ->
  map sinkConfig (pick t j id (zip ids sinks)) = subscribers t sinks.
Proof.
  unfold pick, subscribers. rewrite map_map. simpl.
  revert ids. induction sinks as [|s sinks IH]; intros [|i ids] Hl;
    simpl in *; try discriminate; try reflexivity.
  rewrite !filter_cons. simpl. destruct (subscribesTo t s).
  - rewrite !decide_True by reflexivity. simpl. f_equal. apply IH. lia.
  - rewrite !decide_False by discriminate. apply IH. lia.
Qed.

Lemma zip_map_elem {A B C} (f : B -> C) (ids : list A) : forall (l : list B) i x,
  (i, x) ∈ zip ids l -> (i, f x) ∈ zip ids (map f l).
Proof.
  induction ids as [|a ids IH]; intros [|b l] i x H; simpl in *;
    try (now apply elem_of_nil in H).
  apply elem_of_cons in H as [H|H].
  - inversion H; subst. left.
  - right. now apply IH.
Qed.

Lemma pick_recorded t j l p :
  p ∈ pick t j id l ->
  eventType p = t /\ fmtId p = j /\ gateId p = "" /\ (sinkId p, sinkConfig p) ∈ l.
Proof.
  unfold pick. intros Hp. apply list_elem_of_fmap in Hp as ([i s] & -> & Hx).
  apply list_elem_of_filter in Hx as [_ Hx]. simpl. auto.
Qed.

(** The pipelines an eventer records for Audit, Observation and Error are,
    per type, one for each sink of the configuration subscribed to the
    type, in the order of the configuration and carrying that sink's
    configuration.  All share one formatter identifier; each names, as
    its sink, the node that was registered for its sink configuration;
    and none records a gate identifier: the one assigned while the gated
    pipelines are registered is written to the loop's copy only. *)
Theorem NewEventer_records_pipelines (log : option Logger) (lock : option Mutex) c
  (opts : Opts) w (e : Ev) w' :
  NewEventer E Validate log lock c opts w = (Ok e, w') ->
  exists new j,
    trace w' = trace w ++ new /\
    map sinkConfig (auditPipelines e) = subscribers AuditType (Sinks (conf e)) /\
    map sinkConfig (observationPipelines e)
    = subscribers ObservationType (Sinks (conf e)) /\
    map sinkConfig (errPipelines e) = subscribers ErrorType (Sinks (conf e)) /\
    (j, JSONFormatter) ∈ nodesOf new /\
    forall t ps,
      (t, ps) ∈ [(AuditType, auditPipelines e);
                  (ObservationType, observationPipelines e);
                  (ErrorType, errPipelines e)] ->
      forall p, p ∈ ps ->
        eventType p = t /\ fmtId p = j /\ gateId p = "" /\
        (sinkId p, sinkNodeOf (sinkConfig p)) ∈ nodesOf new.
Proof.
  intros H. apply NewEventer_Ok in H
    as (new & j & ids & gs & Ht & _ & Hc & Hl & Ha & Ho & He & _ & _ & _ & Hn & _).
  cbv zeta in *. exists new, j. rewrite Hc.
  split; [exact Ht|].
  split; [rewrite Ha; now apply sinkConfig_pick|].
  split; [rewrite Ho; now apply sinkConfig_pick|].
  split; [rewrite He; now apply sinkConfig_pick|].
  split; [rewrite Hn; left|].
  intros t ps Hin p Hp.
  assert (Hpick : p ∈ pick t j id (zip ids (Sinks (withDefaultSink c)))).
  { repeat (apply elem_of_cons in Hin as [Hin|Hin];
            [inversion Hin; subst; congruence|]).
    now apply elem_of_nil in Hin. }
  apply pick_recorded in Hpick as (Hty & Hf & Hg & Hz).
  repeat split; auto. rewrite Hn. right. apply elem_of_app. left.
  now apply zip_map_elem.
Qed.

(** ** Validation comes first *)

Lemma bind_extends_first {A B} (Q : call Type_ P -> Prop) (m : M Type_ P Mem A)
  (f : A -> M Type_ P Mem B) w :
  (forall a, emitsOnly Q (f a)) ->
  exists new, trace (snd (bind m f w)) = trace (snd (m w)) ++ new.
Proof.
  intros Hf. unfold bind. destruct (m w) as [[a|x] w1]; simpl.
  - destruct (Hf a w1) as (new & Ht & _). eauto.
  - exists []. now rewrite app_nil_r.
Qed.

Lemma first_call_is_newId {B} (Q : call Type_ P -> Prop) g prefix
  (f : string -> M Type_ P Mem B) w :
  (forall a, emitsOnly Q (f a)) ->
  exists rest,
    trace (snd (bind (mapErr g (newId E prefix)) f w)) = trace w ++ NewId prefix :: rest.
Proof.
  intros Hf.
  destruct (bind_extends_first (mapErr g (newId E prefix)) f w Hf) as (rest & ->).
  exists rest. unfold mapErr, newId. destruct (idSource E (trace w) prefix); simpl;
    now rewrite <- app_assoc.
Qed.

(** [NewEventer] checks the logger, the lock and, with the default sink
    already in place, the configuration before it does anything else: on
    a nil logger, a nil lock or a configuration that [Validate] rejects
    it returns the corresponding error and makes no call at all;
    otherwise its first call, after [StopTimeAt] when [WithNow] is given,
    asks for the identifier of the formatter node. *)
Theorem NewEventer_validates_first (log : option Logger) (lock : option Mutex) c
  (opts : Opts) w :
  match log, lock, Validate (withDefaultSink c) with
  | None, _, _ =>
      NewEventer E Validate log lock c opts w
      = (Err (ErrorfW "event.NewEventer: missing logger" ErrInvalidParameter), w)
  | Some _, None, _ =>
      NewEventer E Validate log lock c opts w
      = (Err (ErrorfW "event.NewEventer: missing serialization lock" ErrInvalidParameter),
         w)
  | Some _, Some _, Some cause =>
      NewEventer E Validate log lock c opts w = (Err (ErrorfW "event.NewEventer" cause), w)
  | Some _, Some _, None =>
      exists rest,
        trace (snd (NewEventer E Validate log lock c opts w))
        = trace w
          ++ (if (withNow opts =? 0)%Z then [] else [StopTimeAt (withNow opts)])
          ++ NewId "json" :: rest
  end.
Proof.
  unfold NewEventer. destruct log as [lg|]; [|reflexivity].
  destruct lock as [lk|]; [|reflexivity].
  destruct (Validate (withDefaultSink c)) as [ve|]; [reflexivity|].
  unfold bind at 1.
  destruct (withNow opts =? 0)%Z; simpl;
    (match goal with |- context [bind (mapErr ?g (newId E ?p)) ?f ?w0] =>
       assert (Hf : forall a, emitsOnly (fun x => isSetup x = true) (f a));
       [ intros ?; emits_only;
         [ unfold buildSink; rewrite lookup_empty; destruct (sinkType _); emits_only
         | unfold requireSinks;
           repeat match goal with |- context [if ?b then _ else _] => destruct b end;
           emits_only ]
       | destruct (first_call_is_newId g p f w0 Hf) as (rest & ->);
         exists rest; simpl; now rewrite <- ?app_assoc ]
     end).
Qed.






(** ** The failures of the constructor *)




(** ** Sending *)

Lemma emitsOnly_retryFrom ctx (Q : call Type_ P -> Prop) (sendFn : M Type_ P Mem Status) :
  emitsOnly Q sendFn -> (forall k, Q (Sleep k)) ->
  forall remaining attempt,
    emitsOnly Q (retryFrom transient ctx attempt remaining sendFn).
Proof.
  intros Hs Hsl. induction remaining as [|n IH]; intros attempt w.
  - exists []. simpl. rewrite app_nil_r. auto.
  - rewrite retryFrom_S. destruct (Hs w) as (new & Hnew & HQ).
    destruct (sendFn w) as [[st|x] w1]; simpl in *; [eauto|].
    destruct (transient x); [|eauto].
    destruct n as [|n]; [eauto|].
    destruct (ctx (trace w1)); [eauto|].
    destruct (IH (S attempt) (record (Sleep attempt) w1)) as (new' & Hnew' & HQ').
    exists (new ++ Sleep attempt :: new').
    rewrite Hnew', trace_record, Hnew, <- !app_assoc. split; [reflexivity|].
    apply Forall_app. split; [exact HQ|]. constructor; auto.
Qed.

Lemma retried_call_outcome msg op ctx c n w :
  match logFailure msg op (retrySend transient ctx n (invoke E c)) w with
  | (Ok _, w') =>
      exists new, trace w' = trace w ++ new /\ Forall (attemptOf c) new /\
                  store w' = store w
  | (Err x, w') =>
      exists new cause,
        trace w' = trace w ++ new ++ [LoggerError msg cause] /\
        Forall (attemptOf c) new /\
        x = ErrorfW op cause /\
        store w' = store w
  end.
Proof.
  unfold logFailure, retrySend.
  assert (He : emitsOnly (attemptOf c) (invoke E c : M Type_ P Mem Status))
    by (apply emitsOnly_invoke; now left).
  destruct (emitsOnly_retryFrom ctx He (fun k => or_intror (ex_intro _ k eq_refl)) n 1 w)
    as (new & Ht & HQ).
  assert (Hst : keepsStore (retryFrom transient ctx 1 n (invoke E c : M Type_ P Mem Status))).
  { clear. generalize 1. induction n as [|n IH]; intros attempt w; [reflexivity|].
    rewrite retryFrom_S. pose proof (keepsStore_invoke E c w) as Hk.
    destruct (invoke E c w) as [[st|x] w1]; simpl in *; [exact Hk|].
    destruct (transient x); [|exact Hk]. destruct n as [|n]; [exact Hk|].
    destruct (ctx (trace w1)); [exact Hk|]. rewrite IH. exact Hk. }
  specialize (Hst w).
  destruct (retryFrom transient ctx 1 n (invoke E c) w) as [[u|x] w1]; simpl in *.
  - exists new. auto.
  - exists new, x. rewrite Ht, <- app_assoc. auto.
Qed.

(** [writeError] and [writeSysEvent] of a non-nil event make no other broker
    call than sends of that event with their event type, with sleeps in
    between.  When they return nil nothing is logged; when they return an
    error, the cause is logged exactly once, as the last call, and the
    error returned wraps that cause with the name of the method. *)
Theorem failed_writes_are_logged_once (e : Ev) ctx :
  (forall (event : err) w,
     match writeError E stdRetryCount transient e ctx (Some event) w with
     | (Ok _, w') =>
         exists new, trace w' = trace w ++ new /\
           Forall (attemptOf (Send ErrorType (ErrEvent event))) new /\
           store w' = store w
     | (Err x, w') =>
         exists new cause,
           trace w' = trace w ++ new
             ++ [LoggerError "encountered an error sending an error event" cause] /\
           Forall (attemptOf (Send ErrorType (ErrEvent event))) new /\
           x = ErrorfW "event.(Eventer).writeError" cause /\
           store w' = store w
     end) /\
  (forall (event : sysEvent) w,
     match writeSysEvent E stdRetryCount transient e ctx (Some event) w with
     | (Ok _, w') =>
         exists new, trace w' = trace w ++ new /\
           Forall (attemptOf (Send SystemType (SysEvent event))) new /\
           store w' = store w
     | (Err x, w') =>
         exists new cause,
           trace w' = trace w ++ new
             ++ [LoggerError "encountered an error sending an sys event" cause] /\
           Forall (attemptOf (Send SystemType (SysEvent event))) new /\
           x = ErrorfW "event.(Eventer).writeSysEvent" cause /\
           store w' = store w
     end).
Proof.
  split; intros event w.
  - apply (retried_call_outcome "encountered an error sending an error event"
             "event.(Eventer).writeError" ctx (Send ErrorType (ErrEvent event))
             stdRetryCount w).
  - apply (retried_call_outcome "encountered an error sending an sys event"
             "event.(Eventer).writeSysEvent" ctx (Send SystemType (SysEvent event))
             stdRetryCount w).
Qed.

(** A nil event is refused by each of the four write methods before
    anything else is looked at: the result is the invalid parameter error
    [missing event] and no call is made, also when the event type is
    disabled, where a non-nil event would be dropped with a nil result. *)
Theorem nil_events_are_refused (e : Ev) ctx w :
  writeObservation E stdRetryCount transient e ctx None w
  = (Err (ErrorfW "event.(Eventer).writeObservation: missing event" ErrInvalidParameter), w)
  /\ writeError E stdRetryCount transient e ctx None w
     = (Err (ErrorfW "event.(Eventer).writeError: missing event" ErrInvalidParameter), w)
  /\ writeSysEvent E stdRetryCount transient e ctx None w
     = (Err (ErrorfW "event.(Eventer).writeSysEvent: missing event" ErrInvalidParameter), w)
  /\ writeAudit E stdRetryCount transient e ctx None w
     = (Err (ErrorfW "event.(Eventer).writeAudit: missing event" ErrInvalidParameter), w).
Proof. repeat split. Qed.

(** [writeSysEvent] reads no enabled flag: whatever the configuration of
    the eventer, also with system events disabled, its first action for a
    non-nil event is [Broker.Send] with the System type and the event. *)
Theorem writeSysEvent_always_sends (e : Ev) ctx (event : sysEvent) w :
  0 < stdRetryCount ->
  exists rest,
    trace (snd (writeSysEvent E stdRetryCount transient e ctx (Some event) w))
    = trace w ++ Send SystemType (SysEvent event) :: rest.
Proof.
  intros Hpos. unfold writeSysEvent, retrySend.
  destruct stdRetryCount as [|n]; [lia|].
  match goal with |- context [logFailure ?msg ?op ?m w] =>
    destruct (logFailure_trace msg op m w) as (tail & -> & _) end.
  destruct (retryFrom_invoke_first E transient ctx (Send SystemType (SysEvent event)) n 1 w)
    as (rest & ->).
  exists (rest ++ tail). now rewrite <- app_assoc.
Qed.

(** ** Installing the singleton *)

(** When [InitSysEventer] returns nil, the logger and the lock were given,
    exactly one of [WithEventer] and [WithEventerConfig] was given, and
    the package variable holds the eventer of [WithEventer], installed
    without any call, or else the eventer that [NewEventer] built for the
    configuration with default options; [SysEventer()] then returns that
    eventer.  A singleton installed before is replaced. *)
Theorem InitSysEventer_installs (log : option Logger) (lock : option Mutex)
  (opts : Opts) w u w' :
  InitSysEventer E Validate log lock opts w = (Ok u, w') ->
  log <> None /\ lock <> None /\
  observations (store w') = observations (store w) /\
  exists e,
    sysEventer (store w') = Some e /\
    fst (SysEventer w') = Ok (Some e) /\
    ((withEventer opts = Some e /\ withEventerConfig opts = None /\
      trace w' = trace w) \/
     (withEventer opts = None /\
      exists c w1,
        withEventerConfig opts = Some c /\
        NewEventer E Validate log lock c getDefaultOptions w = (Ok e, w1) /\
        trace w' = trace w1)).
Proof.
  unfold InitSysEventer. destruct log as [lg|]; [|discriminate].
  destruct lock as [lk|]; [|discriminate].
  intros H. go_inv H. inversion H; subst w'; clear H. simpl.
  split; [discriminate|]. split; [discriminate|].
  destruct (withEventer opts) as [ev|], (withEventerConfig opts) as [cfg|];
    try discriminate.
  - inversion Hstep; subst.
    split; [reflexivity|]. exists a. split; [reflexivity|]. split; [reflexivity|].
    left. auto.
  - apply mapErr_Ok_inv in Hstep.
    pose proof (keepsStore_NewEventer E Validate (Some lg) (Some lk) cfg getDefaultOptions w)
      as Hk.
    rewrite Hstep in Hk. simpl in Hk. rewrite Hk.
    split; [reflexivity|]. exists a. split; [reflexivity|]. split; [reflexivity|].
    right. split; [reflexivity|]. exists cfg, w0. auto.
Qed.

End Facts.
End EventMore.

(** * Further facts about the earlier eventer *)

Module EventV0More.

Import EventV0 EventV0Facts.

Section Facts.

Context {Info_ Err_ Audit_ Logger : Type}.

Local Abbreviation P := (payload (Info_:=Info_) (Err_:=Err_) (Audit_:=Audit_)).
Local Abbreviation Ev := (Eventer (Logger:=Logger)).

Variable E : environment Type_ P.

Implicit Types (w : world Type_ P unit).

(** ** The constructor *)

Lemma V0_emitsOnly_sinkBody acc s :
  emitsOnly (fun x => isSetup x = true) (sinkBody E acc s).
Proof. unfold sinkBody. emits_only. Qed.

Lemma V0_emitsOnly_NewEventer (log : option Logger) c :
  emitsOnly (fun x => isSetup x = true) (NewEventer E log c).
Proof.
  unfold NewEventer. destruct log; [|emits_only].
  emits_only; try apply V0_emitsOnly_sinkBody;
    match goal with |- context [if ?b then _ else _] => destruct b end; emits_only.
Qed.

(** When the earlier [NewEventer] succeeds it has registered the JSON
    formatter and then, for every sink of the configuration in order, one
    file sink node built from the sink's format, path, file name and
    rotation settings, whatever the sink's [SinkType]; it has registered
    exactly three pipelines, with the identifiers [audit-pipeline],
    [info-pipeline] and [err-pipeline], each made of the formatter followed
    by the sinks subscribed to its event type, in the order of the
    configuration; it has sent no event; and the eventer holds the logger
    and the configuration with the default sink filled in. *)
Theorem V0_NewEventer_registers (log : option Logger) c w (e : Ev) w' :
  NewEventer E log c w = (Ok e, w') ->
  exists new j ids,
    trace w' = trace w ++ new /\
    conf e = withDefaultSink c /\
    log = Some (logger e) /\
    length ids = length (Sinks (conf e)) /\
    nodesOf new = (j, JSONFormatter) :: zip ids (map fileNodeOf (Sinks (conf e))) /\
    map PipelineID (pipelinesOf new) = [AuditPipeline; InfoPipeline; ErrPipeline] /\
    map EventType (pipelinesOf new) = [AuditType; InfoType; ErrorType] /\
    map NodeIDs (pipelinesOf new)
    = map (fun t => j :: chosen t (zip ids (Sinks (conf e))))
        [AuditType; InfoType; ErrorType] /\
    sendsOf new = [].
Proof.
  intros H. pose proof H as H0. apply V0_NewEventer_Ok in H
    as (new & j & ids & Ht & Hc & Hl & Hn & Hp & Hth).
  cbv zeta in *. rewrite Hc. exists new, j, ids.
  split; [exact Ht|]. split; [reflexivity|].
  split.
  { unfold NewEventer in H0. destruct log as [lg|]; [|discriminate].
    go_inv H0. inversion H0; subst. reflexivity. }
  split; [exact Hl|]. split; [exact Hn|]. rewrite Hp. simpl.
  do 3 (split; [reflexivity|]).
  destruct (V0_emitsOnly_NewEventer log c w) as (new' & Ht' & Hall).
  rewrite H0 in Ht'. simpl in Ht'. rewrite Ht in Ht'.
  apply app_inv_head in Ht'. subst new'.
  now apply setup_calls_neither_send_nor_flush in Hall.
Qed.


(** The getters [AuditDeliveryGuaranteed] and [InfoDeliveryGuaranteed] of
    an eventer that [NewEventer] returned tell what was asked of the
    broker: each is true exactly when the constructor set a success
    threshold for its event type. *)
Theorem V0_delivery_guarantee_matches_threshold (log : option Logger) c w (e : Ev) w' :
  NewEventer E log c w = (Ok e, w') ->
  exists new,
    trace w' = trace w ++ new /\
    (AuditDeliveryGuaranteed e = true <-> exists n, (AuditType, n) ∈ thresholdsOf new) /\
    (InfoDeliveryGuaranteed e = true <-> exists n, (InfoType, n) ∈ thresholdsOf new).
Proof.
  intros H. apply V0_NewEventer_Ok in H
    as (new & j & ids & Ht & Hc & Hl & Hn & Hp & Hth).
  cbv zeta in *. exists new. split; [exact Ht|].
  unfold AuditDeliveryGuaranteed, InfoDeliveryGuaranteed. rewrite Hc, Hth.
  assert (HA : AuditDelivery (withDefaultSink c) = AuditDelivery c)
    by (unfold withDefaultSink; destruct (decide (length (Sinks c) = 0)); reflexivity).
  assert (HI : InfoDelivery (withDefaultSink c) = InfoDelivery c)
    by (unfold withDefaultSink; destruct (decide (length (Sinks c) = 0)); reflexivity).
  rewrite HA, HI, !bool_decide_eq_true.
  destruct (decide (AuditDelivery c = Enforced)) as [Ha|Ha],
    (decide (InfoDelivery c = Enforced)) as [Hi|Hi]; simpl;
    (split; (split; [intros HH | intros (n & HH)]));
    first [ assumption
          | contradiction
          | eexists; rewrite ?elem_of_cons; eauto; fail
          | exfalso;
            repeat (apply elem_of_cons in HH as [HH|HH]; [discriminate|]);
            now apply elem_of_nil in HH ].
Qed.

(** ** The methods *)

Lemma V0_sendAndLog_once op what t ev w :
  deliveredOnce E op what t ev w (sendAndLog E op what t ev w).
Proof.
  unfold deliveredOnce, sendAndLog, invoke. simpl.
  destruct (failure (respond E (trace w) (Send t ev))) as [cause|] eqn:Hf.
  - eexists [_; _]. simpl. rewrite <- app_assoc. split; [reflexivity|].
    split; [reflexivity|]. exists cause. auto.
  - destruct (0 <? length _)%nat; simpl.
    + eexists [_; _]. rewrite <- app_assoc. auto.
    + eexists [_]. auto.
Qed.

Lemma V0_sendAndLog_first op what t ev w :
  exists rest, trace (snd (sendAndLog E op what t ev w)) = trace w ++ Send t ev :: rest.
Proof.
  unfold sendAndLog, invoke.
  destruct (failure (respond E (trace w) (Send t ev))); simpl.
  - eexists [_]. now rewrite <- app_assoc.
  - destruct (0 <? length _)%nat; simpl.
    + eexists [_]. now rewrite <- app_assoc.
    + exists []. reflexivity.
Qed.

(** [Error] reads no flag of the eventer: it always hands the event to the
    broker, once, with the Error type.  [Info] does the same with the Info
    type when info events are enabled, and otherwise returns nil without
    any call.  Neither repeats a refused send; warnings of the broker are
    logged but do not make the method fail. *)
Theorem V0_Error_and_Info_send_once (e : Ev) w :
  (forall event : option Err_,
     deliveredOnce E "event.(Eventer).Error" "error" ErrorType (ErrEvent event) w
       (Error E e event w)) /\
  (forall event : option Info_,
     if InfoEnabled (conf e)
     then deliveredOnce E "event.(Eventer).Info" "info" InfoType (InfoEvent event) w
            (Info E e event w)
     else Info E e event w = (Ok tt, w)).
Proof.
  split; intros event.
  - apply V0_sendAndLog_once.
  - unfold Info. destruct (InfoEnabled (conf e)); simpl; [|reflexivity].
    apply V0_sendAndLog_once.
Qed.

(** [SetAuditEnabled] and [SetInfoEnabled] switch their own flag and
    nothing else: after [SetAuditEnabled(false)] an [Audit] returns nil
    without any call, after [SetAuditEnabled(true)] it sends, and [Info],
    the sinks and both delivery guarantees are as before; likewise for
    [SetInfoEnabled].  The two setters commute, the last value set wins,
    and setting a flag to its current value changes nothing. *)
Theorem V0_setters_switch_one_flag (e : Ev) (a b : bool) w :
  (forall ev : option Audit_, Audit E (SetAuditEnabled e false) ev w = (Ok tt, w)) /\
  (forall ev : option Audit_,
     exists rest,
       trace (snd (Audit E (SetAuditEnabled e true) ev w))
       = trace w ++ Send InfoType (AuditEvent ev) :: rest) /\
  (forall ev : option Info_, Info E (SetInfoEnabled e false) ev w = (Ok tt, w)) /\
  (forall ev : option Info_,
     exists rest,
       trace (snd (Info E (SetInfoEnabled e true) ev w))
       = trace w ++ Send InfoType (InfoEvent ev) :: rest) /\
  (forall ev : option Info_, Info E (SetAuditEnabled e b) ev w = Info E e ev w) /\
  (forall ev : option Audit_, Audit E (SetInfoEnabled e b) ev w = Audit E e ev w) /\
  AuditDeliveryGuaranteed (SetAuditEnabled e b) = AuditDeliveryGuaranteed e /\
  InfoDeliveryGuaranteed (SetAuditEnabled e b) = InfoDeliveryGuaranteed e /\
  AuditDeliveryGuaranteed (SetInfoEnabled e b) = AuditDeliveryGuaranteed e /\
  InfoDeliveryGuaranteed (SetInfoEnabled e b) = InfoDeliveryGuaranteed e /\
  Sinks (conf (SetAuditEnabled e b)) = Sinks (conf e) /\
  Sinks (conf (SetInfoEnabled e b)) = Sinks (conf e) /\
  SetAuditEnabled (SetInfoEnabled e a) b = SetInfoEnabled (SetAuditEnabled e b) a /\
  SetAuditEnabled (SetAuditEnabled e a) b = SetAuditEnabled e b /\
  SetInfoEnabled (SetInfoEnabled e a) b = SetInfoEnabled e b /\
  SetAuditEnabled e (AuditEnabled (conf e)) = e /\
  SetInfoEnabled e (InfoEnabled (conf e)) = e.
Proof.
  split; [reflexivity|].
  split.
  { intros ev. apply V0_Audit_sends_info_type. reflexivity. }
  split; [reflexivity|].
  split.
  { intros ev. apply V0_sendAndLog_first. }
  repeat split; try reflexivity; destruct e as [[]]; reflexivity.
Qed.

End Facts.
End EventV0More.

(** * Facts about [ids.go] *)

Module OidcFacts.

Import Oidc.

Section Facts.

Variable NewPublicId : string -> option (list string) -> result string.

(** [newAccountId] returns an id exactly when the auth method id, the
    issuer and the subject are all non-empty and [db.NewPublicId], called
    with the account prefix and these three values, in this order, as
    PRNG values, returns that id. *)
Theorem newAccountId_Ok_iff (authMethodId issuer sub id : string) :
  newAccountId NewPublicId authMethodId issuer sub = Ok id
  <-> authMethodId <> "" /\ issuer <> "" /\ sub <> "" /\
      NewPublicId AccountPrefix (Some [authMethodId; issuer; sub]) = Ok id.
Proof.
  unfold newAccountId.
  destruct (decide (authMethodId = "")) as [Ha|Ha];
    [split; [discriminate | intros (? & _); contradiction]|].
  destruct (decide (issuer = "")) as [Hi|Hi];
    [split; [discriminate | intros (_ & ? & _); contradiction]|].
  destruct (decide (sub = "")) as [Hs|Hs];
    [split; [discriminate | intros (_ & _ & ? & _); contradiction]|].
  destruct (NewPublicId AccountPrefix _) as [x|x]; split.
  - intros H; inversion H; subst; auto.
  - intros (_ & _ & _ & H); inversion H; subst; auto.
  - discriminate.
  - intros (_ & _ & _ & H); discriminate.
Qed.

(** The errors of [newAccountId]: the first empty argument, in the order
    auth method id, issuer, subject, is reported as an invalid parameter,
    whatever [db.NewPublicId] would return; only with three non-empty
    arguments is an error of [db.NewPublicId] returned, wrapped. *)
Theorem newAccountId_Err_iff (authMethodId issuer sub : string) (x : goerror) :
  newAccountId NewPublicId authMethodId issuer sub = Err x
  <-> (authMethodId = "" /\
       x = ErrorsNew InvalidParameter "oidc.newAccountId" "missing auth method id")
      \/ (authMethodId <> "" /\ issuer = "" /\
          x = ErrorsNew InvalidParameter "oidc.newAccountId" "missing issuer")
      \/ (authMethodId <> "" /\ issuer <> "" /\ sub = "" /\
          x = ErrorsNew InvalidParameter "oidc.newAccountId" "missing subject")
      \/ (authMethodId <> "" /\ issuer <> "" /\ sub <> "" /\
          exists cause,
            NewPublicId AccountPrefix (Some [authMethodId; issuer; sub]) = Err cause /\
            x = ErrorsWrap cause "oidc.newAccountId").
Proof.
  unfold newAccountId.
  destruct (decide (authMethodId = "")) as [Ha|Ha].
  { split.
    - intros H; inversion H; auto.
    - intros [(_ & ->)|[(? & _)|[(? & _)|(? & _)]]]; [reflexivity|contradiction..]. }
  destruct (decide (issuer = "")) as [Hi|Hi].
  { split.
    - intros H; inversion H; auto.
    - intros [(? & _)|[(_ & _ & ->)|[(_ & ? & _)|(_ & ? & _)]]];
        [contradiction|reflexivity|contradiction..]. }
  destruct (decide (sub = "")) as [Hs|Hs].
  { split.
    - intros H; inversion H. right; right; left. auto.
    - intros [(? & _)|[(_ & ? & _)|[(_ & _ & _ & ->)|(_ & _ & ? & _)]]];
        [contradiction|contradiction|reflexivity|contradiction]. }
  destruct (NewPublicId AccountPrefix _) as [id|cause] eqn:Hg; split.
  - discriminate.
  - intros [(? & _)|[(_ & ? & _)|[(_ & _ & ? & _)|(_ & _ & _ & c & Hc & _)]]];
      [contradiction..|discriminate].
  - intros H; inversion H; subst. right; right; right.
    do 3 (split; [assumption|]). exists cause. auto.
  - intros [(? & _)|[(_ & ? & _)|[(_ & _ & ? & _)|(_ & _ & _ & c & Hc & ->)]]];
      [contradiction..|]. inversion Hc; subst. reflexivity.
Qed.

End Facts.
End OidcFacts.

(** * The theorems at sample inputs *)

Module EventExamples.

Import Event Samples EventSamples EventFacts.


(** C4, at the failing input: for two file sinks with the same path and
    file name, under a validation and a broker that accept everything,
    [NewEventer] succeeds and registers two file sink nodes on the same
    path and file name. *)
Theorem NewEventer_accepts_duplicate_file_sinks :
  exists e w',
    NewEventer acceptAll accepts (Some tt) (Some tt) duplicateSinks getDefaultOptions
      emptyWorld = (Ok e, w') /\
    map snd (filter (fun x => isSink (snd x) = true) (nodesOf (trace w')))
    = [FileSinkNode "json" "/var/log" "events.log" 0 0 0;
       FileSinkNode "json" "/var/log" "events.log" 0 0 0].
Proof.
  eexists _, _. split.
  - vm_compute. reflexivity.
  - vm_compute. reflexivity.
Qed.

(** C6, witness: with three attempts, the disabled eventer writes neither
    an audit event nor an observation, and its error write starts with a
    send. *)
Lemma disabled_writes_are_silent_witness :
  0 < 3 /\
  writeAudit acceptAll 3 alwaysTransient silentEventer background (Some tt) emptyWorld
  = (Ok tt, emptyWorld) /\
  writeObservation acceptAll 3 alwaysTransient silentEventer background (Some 0)
    emptyWorld = (Ok tt, emptyWorld) /\
  exists rest,
    trace (snd (writeError acceptAll 3 alwaysTransient silentEventer background
                  (Some tt) emptyWorld))
    = trace emptyWorld ++ Send ErrorType (ErrEvent tt) :: rest.
Proof.
  assert (Hpos : 0 < 3) by lia.
  destruct (disabled_writes_are_silent (audit:=unit) (err:=unit) (sysEvent:=unit)
              (RequestInfo:=string) (Logger:=unit) (Broker:=unit)
              acceptAll alwaysTransient Hpos) as (Ha & Ho & He).
  split; [exact Hpos|]. split; [apply Ha; reflexivity|].
  split; [apply Ho; reflexivity|]. apply He.
Defined.

(** C7, witness: the constructor run on the default configuration. *)
Lemma NewEventer_pipeline_shapes_witness :
  exists e w',
    NewEventer acceptAll accepts (Some tt) (Some tt) DefaultEventerConfig
      getDefaultOptions emptyWorld = (Ok e, w') /\
    map (@EventType _) (pipelinesOf (trace w'))
    = [AuditType; ObservationType; ErrorType; SystemType] /\
    flushableNodes e = [0; 1].
Proof.
  eexists _, _. split; [vm_compute; reflexivity|].
  match goal with |- context [trace ?w'] => set (w1 := w') end.
  match goal with |- context [flushableNodes ?e] => set (e1 := e) end.
  assert (H : NewEventer acceptAll accepts (Some tt) (Some tt) DefaultEventerConfig
                getDefaultOptions emptyWorld = (Ok e1, w1))
    by (vm_compute; reflexivity).
  clearbody w1.
  apply NewEventer_pipeline_shapes in H
    as (new & gs & Ht & Hty & _ & _ & Hf & _).
  simpl in Ht. rewrite Ht. split; [exact Hty | exact Hf].
Defined.

(** C8, witness: the constructor run without sinks. *)
Lemma NewEventer_default_sink_witness :
  Sinks noSinks = [] /\
  exists e w',
    NewEventer acceptAll accepts (Some tt) (Some tt) noSinks getDefaultOptions
      emptyWorld = (Ok e, w') /\
    Sinks (conf e) = [DefaultSink] /\
    exists id, filter (fun x => isSink (snd x) = true) (nodesOf (trace w'))
               = [(id, WriterSink JSONSinkFormat)].
Proof.
  assert (Hs : Sinks noSinks = []) by reflexivity.
  split; [exact Hs|]. eexists _, _. split; [vm_compute; reflexivity|].
  match goal with |- context [trace ?w'] => set (w1 := w') end.
  match goal with |- context [conf ?e] => set (e1 := e) end.
  assert (H : NewEventer acceptAll accepts (Some tt) (Some tt) noSinks
                getDefaultOptions emptyWorld = (Ok e1, w1))
    by (vm_compute; reflexivity).
  clearbody w1.
  destruct (NewEventer_default_sink (Logger:=unit) (Mutex:=unit) (Broker:=unit)
              (acceptAll (T:=Type_) (P:=P)) accepts (Some tt) (Some tt) noSinks
              getDefaultOptions Hs) as (_ & _ & _ & _ & Hok).
  destruct (Hok _ _ _ H) as (Hc & new & id & Ht & Hn).
  simpl in Ht. rewrite Ht. split; [exact Hc|]. exists id. exact Hn.
Defined.

(** C9, counterexample: for an observation whose header and detail maps
    are nil, the payload handed to the broker has no header and no detail
    map, so none of the three fields is stamped. *)
Lemma writeObservation_leaves_nil_maps :
  observations (store (worldWith bareObservation None)) !! 0 = Some bareObservation /\
  sendsOf (trace (snd (writeObservation acceptAll 3 alwaysTransient defaultEventer
                         background (Some 0) (worldWith bareObservation None))))
  = [(ObservationType,
      GatedPayload {| ID := "1"; Flush := false; Header := None; Detail := None |})].
Proof. split; vm_compute; reflexivity. Qed.

(** C9, witness: an observation with empty maps. *)
Lemma writeObservation_stamps_witness :
  0 < 3 /\
  ObservationsEnabled (conf defaultEventer) = true /\
  observations (store (worldWith emptyObservation None)) !! 0 = Some emptyObservation /\
  exists new p h d,
    trace (snd (writeObservation acceptAll 3 alwaysTransient defaultEventer background
                  (Some 0) (worldWith emptyObservation None)))
    = trace (worldWith emptyObservation None) ++ new /\
    sendsOf new <> [] /\
    (forall x, x ∈ sendsOf new -> x = (ObservationType, GatedPayload p)) /\
    Header p = Some h /\
    h !! RequestInfoField = Some (VRequestInfo (Some "request-1")) /\
    h !! VersionField = Some (VString "v0.1") /\
    Detail p = Some d /\
    d !! OpField = Some (VString "Handler").
Proof.
  assert (Hpos : 0 < 3) by lia.
  assert (He : ObservationsEnabled (conf defaultEventer) = true) by reflexivity.
  assert (Hl : observations (store (worldWith emptyObservation None)) !! 0
               = Some emptyObservation) by (vm_compute; reflexivity).
  split; [exact Hpos|]. split; [exact He|]. split; [exact Hl|].
  destruct (writeObservation_stamps (audit:=unit) (err:=unit) (sysEvent:=unit)
              acceptAll alwaysTransient defaultEventer background 0
              (worldWith emptyObservation None) Hpos He Hl)
    as (new & p & Ht & Hne & Hall & _ & _ & Hh & Hd).
  simpl in Hh, Hd.
  destruct Hh as (h & Hh & Hr & Hv & _). destruct Hd as (d & Hd & Ho & _).
  exists new, p, h, d. repeat split; assumption.
Defined.

(** C10, witness: a singleton is installed and [InitSysEventer] is called
    with a configuration that [NewEventer] rejects. *)
Lemma InitSysEventer_error_keeps_singleton_witness :
  exists x w',
    InitSysEventer acceptAll accepts (Some tt) (Some tt) (withConfig auditWithoutSink)
      (worldWith bareObservation (Some defaultEventer)) = (Err x, w') /\
    sysEventer (store w') = Some defaultEventer /\
    fst (SysEventer w') = Ok (Some defaultEventer).
Proof.
  eexists _, _. split; [vm_compute; reflexivity|].
  match goal with |- context [store ?w'] => set (w1 := w') end.
  assert (H : InitSysEventer acceptAll accepts (Some tt) (Some tt)
                (withConfig auditWithoutSink)
                (worldWith bareObservation (Some defaultEventer))
              = (Err (ErrorfW "event.InitSysEventer"
                        (ErrorfW "event.NewEventer: audit events enabled but no sink defined for it"
                           ErrInvalidParameter)), w1))
    by (vm_compute; reflexivity).
  clearbody w1.
  apply InitSysEventer_error_keeps_singleton in H as (Hs & Hg).
  split; [exact Hs | exact Hg].
Defined.

End EventExamples.

Module EventV0Examples.

Import EventV0 Samples EventV0Samples EventV0Facts.

(** C1, at the failing input: the earlier constructor, given one sink
    subscribed to error events, sets the success threshold of the Error
    type to 2: it counts the formatter node along with the sink. *)
Theorem V0_error_threshold_counts_formatter :
  length (subscribers ErrorType (Sinks oneErrorSink)) = 1 /\
  exists e w',
    NewEventer acceptAll (Some tt) oneErrorSink emptyWorld = (Ok e, w') /\
    thresholdsOf (trace w') = [(ErrorType, 2%Z)] /\
    map snd (nodesOf (trace w'))
    = [JSONFormatter; FileSinkNode "json" "/var/log" "errors.log" 0 0 0].
Proof.
  split; [reflexivity|]. eexists _, _. split; [vm_compute; reflexivity|].
  split; vm_compute; reflexivity.
Qed.

(** C2, at the failing input: with auditing enabled, the [Audit] method of
    the earlier eventer sends the audit event with the Info type. *)
Theorem V0_Audit_sends_with_info_type :
  AuditEnabled (conf auditing) = true /\
  Audit acceptAll auditing (Some tt) emptyWorld
  = (Ok tt, {| trace := [Send InfoType (AuditEvent (Some tt))]; store := tt |}).
Proof. split; reflexivity. Qed.


(** C7, counterexample: for one sink subscribed to every type, the earlier
    constructor registers an Audit pipeline whose node list is the
    formatter followed by the sink; no gated filter is registered. *)
Lemma V0_audit_pipeline_has_no_gate :
  exists e w',
    NewEventer acceptAll (Some tt) enforcedAudit emptyWorld = (Ok e, w') /\
    pipelinesOf (trace w')
    = [ {| EventType := AuditType; PipelineID := AuditPipeline;
           NodeIDs := ["json_0"; "file_/var/log_events.log__2"] |};
        {| EventType := InfoType; PipelineID := InfoPipeline;
           NodeIDs := ["json_0"; "file_/var/log_events.log__2"] |};
        {| EventType := ErrorType; PipelineID := ErrPipeline;
           NodeIDs := ["json_0"; "file_/var/log_events.log__2"] |} ] /\
    nodesOf (trace w')
    = [("json_0", JSONFormatter);
       ("file_/var/log_events.log__2",
        FileSinkNode "json" "/var/log" "events.log" 0 0 0)] /\
    filter (fun x => isGate (snd x) = true) (nodesOf (trace w')) = [].
Proof.
  eexists _, _. split; [vm_compute; reflexivity|].
  repeat split; vm_compute; reflexivity.
Qed.

(** C8, counterexample: without sinks in the configuration, the earlier
    constructor installs a default sink that writes to the file [foo.txt]
    in the directory [./], not to the console. *)
Lemma V0_default_sink_is_a_file :
  Sinks noSinks = [] /\
  exists e w',
    NewEventer acceptAll (Some tt) noSinks emptyWorld = (Ok e, w') /\
    Sinks (conf e) = [defaultSink] /\
    Path defaultSink = "./" /\ FileName defaultSink = "foo.txt" /\
    filter (fun x => isSink (snd x) = true) (nodesOf (trace w'))
    = [("file_./_foo.txt__2", FileSinkNode "json" "./" "foo.txt" 0 0 0)].
Proof.
  split; [reflexivity|]. eexists _, _. split; [vm_compute; reflexivity|].
  repeat split; vm_compute; reflexivity.
Qed.

End EventV0Examples.

(** * The further facts at sample inputs *)

Module EventMoreExamples.

Import Event Samples EventSamples EventFacts EventMore.

(** The constructor run on the default configuration: observations are
    enabled and have a sink. *)
Lemma NewEventer_enabled_types_have_sinks_witness :
  exists e w',
    NewEventer acceptAll accepts (Some tt) (Some tt) DefaultEventerConfig
      getDefaultOptions emptyWorld = (Ok e, w') /\
    conf e = DefaultEventerConfig /\
    subscribers ObservationType (Sinks (conf e)) <> [].
Proof.
  assert (Hr : exists (e : Ev) w',
             NewEventer acceptAll accepts (Some tt) (Some tt) DefaultEventerConfig
               getDefaultOptions emptyWorld = (Ok e, w'))
    by (eexists _, _; vm_compute; reflexivity).
  destruct Hr as (e & w' & H). exists e, w'. split; [exact H|].
  apply NewEventer_enabled_types_have_sinks in H as (Hc & _ & _ & _ & Ho & _).
  split; [exact Hc|]. apply Ho. rewrite Hc. reflexivity.
Defined.


(** The constructor run on the default configuration: the observation
    pipeline kept in the eventer is the one of the default sink. *)
Lemma NewEventer_records_pipelines_witness :
  exists e w',
    NewEventer acceptAll accepts (Some tt) (Some tt) DefaultEventerConfig
      getDefaultOptions emptyWorld = (Ok e, w') /\
    map sinkConfig (observationPipelines e)
    = subscribers ObservationType (Sinks (conf e)) /\
    Forall (fun p => eventType p = ObservationType /\ gateId p = "")
      (observationPipelines e).
Proof.
  assert (Hr : exists (e : Ev) w',
             NewEventer acceptAll accepts (Some tt) (Some tt) DefaultEventerConfig
               getDefaultOptions emptyWorld = (Ok e, w'))
    by (eexists _, _; vm_compute; reflexivity).
  destruct Hr as (e & w' & H). exists e, w'. split; [exact H|].
  apply NewEventer_records_pipelines in H as (new & j & _ & _ & Ho & _ & _ & Hall).
  split; [exact Ho|]. apply Forall_forall. intros p Hp.
  destruct (Hall ObservationType (observationPipelines e)) with (p := p)
    as (Ht & _ & Hg & _); [right; left | exact Hp | auto].
Defined.


(** The constructor run on the default configuration sets the threshold of
    the Error type to 1, the number of sinks for error events. *)
Lemma NewEventer_error_threshold_witness :
  exists e w',
    NewEventer acceptAll accepts (Some tt) (Some tt) DefaultEventerConfig
      getDefaultOptions emptyWorld = (Ok e, w') /\
    thresholdsOf (trace w') = [(ErrorType, 1%Z)].
Proof.
  assert (Hr : exists (e : Ev) w',
             NewEventer acceptAll accepts (Some tt) (Some tt) DefaultEventerConfig
               getDefaultOptions emptyWorld = (Ok e, w'))
    by (eexists _, _; vm_compute; reflexivity).
  destruct Hr as (e & w' & H). exists e, w'. split; [exact H|].
  pose proof (NewEventer_Ok _ _ _ _ _ _ _ H) as (_ & _ & _ & _ & _ & _ & Hc & _).
  apply NewEventer_error_threshold in H as (new & Ht & Hth).
  simpl in Ht. rewrite Ht, Hth, Hc. reflexivity.
Defined.

(** With three attempts, the eventer with every event type disabled still
    sends a system event. *)
Lemma writeSysEvent_always_sends_witness :
  0 < 3 /\
  SysEventsEnabled (conf silentEventer) = false /\
  exists rest,
    trace (snd (writeSysEvent acceptAll 3 alwaysTransient silentEventer background
                  (Some tt) emptyWorld))
    = trace emptyWorld ++ Send SystemType (SysEvent tt) :: rest.
Proof.
  assert (Hpos : 0 < 3) by lia.
  split; [exact Hpos|]. split; [reflexivity|].
  exact (writeSysEvent_always_sends (audit:=unit) (err:=unit) (sysEvent:=unit)
           (RequestInfo:=string) (Logger:=unit) (Broker:=unit)
           acceptAll alwaysTransient silentEventer background tt emptyWorld Hpos).
Defined.

(** With three attempts, the eventer of the default configuration with
    audit events switched on sends an audit event with the Audit type. *)
Lemma writeAudit_sends_audit_type_witness :
  0 < 3 /\
  exists rest,
    trace (snd (writeAudit acceptAll 3 alwaysTransient auditingEventer background
                  (Some tt) emptyWorld))
    = trace emptyWorld ++ Send AuditType (AuditEvent tt) :: rest.
Proof.
  assert (Hpos : 0 < 3) by lia.
  split; [exact Hpos|].
  apply (writeAudit_sends_audit_type (audit:=unit) (err:=unit) (sysEvent:=unit)
           (RequestInfo:=string) (Logger:=unit) (Broker:=unit)
           acceptAll alwaysTransient auditingEventer background tt emptyWorld Hpos).
  reflexivity.
Defined.

(** [InitSysEventer] with the default configuration, on top of an
    installed singleton: the new eventer replaces it. *)
Lemma InitSysEventer_installs_witness :
  exists u w',
    InitSysEventer acceptAll accepts (Some tt) (Some tt) (withConfig DefaultEventerConfig)
      (worldWith bareObservation (Some silentEventer)) = (Ok u, w') /\
    exists e,
      sysEventer (store w') = Some e /\
      fst (SysEventer w') = Ok (Some e) /\
      observations (store w') = {[ 0 := bareObservation ]}.
Proof.
  assert (Hr : exists u w',
             InitSysEventer (Logger:=unit) (Mutex:=unit) (Broker:=unit)
               (acceptAll (T:=Type_) (P:=P)) accepts (Some tt) (Some tt)
               (withConfig DefaultEventerConfig)
               (worldWith bareObservation (Some silentEventer)) = (Ok u, w'))
    by (eexists _, _; vm_compute; reflexivity).
  destruct Hr as (u & w' & H). exists u, w'. split; [exact H|].
  apply InitSysEventer_installs in H as (_ & _ & Ho & e & Hs & Hg & _).
  exists e. split; [exact Hs|]. split; [exact Hg|]. exact Ho.
Defined.

End EventMoreExamples.

Module EventV0MoreExamples.

Import EventV0 Samples EventV0Samples EventV0Facts EventV0More.

(** The earlier constructor run on one sink for every event type. *)
Lemma V0_NewEventer_registers_witness :
  exists e w',
    NewEventer acceptAll (Some tt) enforcedAudit emptyWorld = (Ok e, w') /\
    map PipelineID (pipelinesOf (trace w')) = [AuditPipeline; InfoPipeline; ErrPipeline] /\
    length (nodesOf (trace w')) = 2 /\
    sendsOf (trace w') = [].
Proof.
  assert (Hr : exists (e : Ev) w',
             NewEventer acceptAll (Some tt) enforcedAudit emptyWorld = (Ok e, w'))
    by (eexists _, _; vm_compute; reflexivity).
  destruct Hr as (e & w' & H). exists e, w'. split; [exact H|].
  apply V0_NewEventer_registers in H
    as (new & j & ids & Ht & Hc & _ & Hl & Hn & Hp & _ & _ & Hs).
  simpl in Ht. rewrite Ht, Hp, Hn, Hs. split; [reflexivity|]. split; [|reflexivity].
  simpl. rewrite length_zip, length_map, Hl, Hc. reflexivity.
Defined.


(** The earlier constructor run with enforced audit delivery and
    best-effort info delivery. *)
Lemma V0_delivery_guarantee_matches_threshold_witness :
  exists e w',
    NewEventer acceptAll (Some tt) enforcedAudit emptyWorld = (Ok e, w') /\
    (AuditDeliveryGuaranteed e = true <->
     exists n, (AuditType, n) ∈ thresholdsOf (trace w')) /\
    (InfoDeliveryGuaranteed e = true <->
     exists n, (InfoType, n) ∈ thresholdsOf (trace w')).
Proof.
  assert (Hr : exists (e : Ev) w',
             NewEventer acceptAll (Some tt) enforcedAudit emptyWorld = (Ok e, w'))
    by (eexists _, _; vm_compute; reflexivity).
  destruct Hr as (e & w' & H). exists e, w'. split; [exact H|].
  apply V0_delivery_guarantee_matches_threshold in H as (new & Ht & Ha & Hi).
  simpl in Ht. rewrite Ht. split; [exact Ha | exact Hi].
Defined.

End EventV0MoreExamples.
